(** * Calendar manager (Calendar-Imp.py): model and verified properties

    The core of the program is four classes, leaf first: [Event],
    [Calendar], [User] and [CalendarsApp].  Users and calendars are owned by
    exactly one dictionary entry (the methods never hand the same [User] or
    [Calendar] to two keys), so they are modelled as values nested in finite
    maps.  [Event] objects are different: [Calendar.add_event] receives an
    object built by the caller, and [Event.update_event] mutates it in place,
    so events live in an object store and a calendar holds references. *)

From stdpp Require Import gmap strings list fin_maps.

Local Open Scope string_scope.
Local Open Scope list_scope.
Local Open Scope nat_scope.

(** ** Values shared by all classes *)

(** [datetime] values are opaque to the core (they are only stored and
    printed); a timestamp in minutes stands for them. *)
Definition datetime : Type := Z.

(** Identity of an [Event] object. *)
Definition loc : Type := nat.

(** [k in d] for a dictionary. *)
Definition dict_contains {A} (k : string) (d : gmap string A) : bool :=
  match d !! k with
  | Some _ => true
  | None => false
  end.

(** [d.pop(k, None)]: the stored value (or [None]) and the dictionary
    without the key. *)
Definition dict_pop {A} (k : string) (d : gmap string A)
  : option A * gmap string A :=
  (d !! k, delete k d).

(** [x is not None]. *)
Definition is_not_None {A} (x : option A) : bool :=
  match x with
  | Some _ => true
  | None => false
  end.

(** ** class Event *)
Module Event.

Record t : Type := mk {
  title : string;
  start_time : datetime;
  end_time : datetime;
  description : string
}.

(** The keyword arguments of [update_event]; each defaults to [None]. *)
Record kwargs : Type := mk_kwargs {
  kw_title : option string;
  kw_start_time : option datetime;
  kw_end_time : option datetime;
  kw_description : option string
}.

(** A call with no keyword argument at all. *)
Definition no_kwargs : kwargs := mk_kwargs None None None None.

(** [Event(title, start_time, end_time, description)]; the default
    description is the empty string. *)
Definition init (title : string) (start_time end_time : datetime)
    (description : string) : t :=
  mk title start_time end_time description.

Definition set_title (v : string) (self : t) : t :=
  mk v (start_time self) (end_time self) (description self).
Definition set_start_time (v : datetime) (self : t) : t :=
  mk (title self) v (end_time self) (description self).
Definition set_end_time (v : datetime) (self : t) : t :=
  mk (title self) (start_time self) v (description self).
Definition set_description (v : string) (self : t) : t :=
  mk (title self) (start_time self) (end_time self) v.

(** [if x is not None: self.f = x], one field. *)
Definition assign_if_given {A} (set : A → t → t) (x : option A) (self : t) : t :=
  match x with
  | Some v => set v self
  | None => self
  end.

(** [update_event]: the four tests in the order of the source. *)
Definition update_event (kw : kwargs) (self : t) : t :=
  let self := assign_if_given set_title (kw_title kw) self in
  let self := assign_if_given set_start_time (kw_start_time kw) self in
  let self := assign_if_given set_end_time (kw_end_time kw) self in
  assign_if_given set_description (kw_description kw) self.

(** [matches_title]: [self.title == title]. *)
Definition matches_title (self : t) (title' : string) : bool :=
  String.eqb (title self) title'.

End Event.

(** The object store: every live [Event] object by identity. *)
Abbreviation store := (gmap loc Event.t).

(** ** class EventFactory and DefaultEventFactory

    The base class only raises [NotImplementedError] and is never
    instantiated; the one factory in use is the default one. *)
Inductive EventFactory : Type :=
  | DefaultEventFactory.

Definition create_event (f : EventFactory) (title : string)
    (start_time end_time : datetime) (description : string) : Event.t :=
  match f with
  | DefaultEventFactory => Event.init title start_time end_time description
  end.

(** ** class Calendar *)
Module Calendar.

Record t : Type := mk {
  name : string;
  events : list loc;
  event_factory : EventFactory
}.

(** [Calendar(name)]; the factory argument is never given by the program. *)
Definition init (name : string) : t := mk name [] DefaultEventFactory.

Definition set_name (v : string) (self : t) : t :=
  mk v (events self) (event_factory self).
Definition set_events (v : list loc) (self : t) : t :=
  mk (name self) v (event_factory self).

(** [self.events.append(event)]. *)
Definition add_event (event : loc) (self : t) : t :=
  set_events (events self ++ [event]) self.

(** [evt.matches_title(event_title)] for the object behind a reference.
    A reference always points into the store in a running program; the
    scan passes over one that does not. *)
Definition matches_at (σ : store) (event_title : string) (l : loc) : bool :=
  match σ !! l with
  | Some evt => Event.matches_title evt event_title
  | None => false
  end.

(** The loop [for i, evt in enumerate(self.events)] up to its first hit:
    the index and the reference of the first matching event, counting
    from [i]. *)
Fixpoint first_match (σ : store) (event_title : string) (evs : list loc)
    (i : nat) : option (nat * loc) :=
  match evs with
  | [] => None
  | l :: evs' =>
      if matches_at σ event_title l then Some (i, l)
      else first_match σ event_title evs' (S i)
  end.

(** [remove_event]: [del self.events[i]] at the first hit. The store is
    only read. *)
Definition remove_event (event_title : string) (σ : store) (self : t)
  : bool * t :=
  match first_match σ event_title (events self) 0 with
  | Some (i, _) => (true, set_events (delete i (events self)) self)
  | None => (false, self)
  end.

(** [update_event]: the first hit is updated in place, which changes the
    store at that object and leaves the calendar's list alone. *)
Definition update_event (event_title : string) (kw : Event.kwargs)
    (σ : store) (self : t) : bool * store :=
  match first_match σ event_title (events self) 0 with
  | Some (_, l) => (true, alter (Event.update_event kw) l σ)
  | None => (false, σ)
  end.

End Calendar.

(** ** class User *)
Module User.

Record t : Type := mk {
  username : string;
  calendars : gmap string Calendar.t
}.

(** [User(username)]. *)
Definition init (username : string) : t := mk username ∅.

Definition set_calendars (v : gmap string Calendar.t) (self : t) : t :=
  mk (username self) v.

Definition factory_create_calendar (self : t) (calendar_name : string)
  : Calendar.t :=
  Calendar.init calendar_name.

Definition create_calendar (calendar_name : string) (self : t) : bool * t :=
  if dict_contains calendar_name (calendars self) then (false, self)
  else
    let new_cal := factory_create_calendar self calendar_name in
    (true, set_calendars (<[calendar_name := new_cal]> (calendars self)) self).

Definition remove_calendar (calendar_name : string) (self : t) : bool * t :=
  let '(popped, rest) := dict_pop calendar_name (calendars self) in
  (is_not_None popped, set_calendars rest self).

Definition update_calendar_name (old_name new_name : string) (self : t)
  : bool * t :=
  if negb (dict_contains old_name (calendars self))
     || dict_contains new_name (calendars self)
  then (false, self)
  else
    match dict_pop old_name (calendars self) with
    | (Some cal, rest) =>
        let cal := Calendar.set_name new_name cal in
        (true, set_calendars (<[new_name := cal]> rest) self)
    | (None, _) => (false, self) (* KeyError, excluded by the test above *)
    end.

End User.

(** ** class CalendarsApp *)
Module CalendarsApp.

Record t : Type := mk {
  users : gmap string User.t
}.

(** [CalendarsApp()]. *)
Definition init : t := mk ∅.

Definition create_user (username : string) (self : t) : bool * t :=
  if dict_contains username (users self) then (false, self)
  else (true, mk (<[username := User.init username]> (users self))).

(** [self.users.get(username)]. *)
Definition get_user (username : string) (self : t) : option User.t :=
  users self !! username.

Definition delete_user (username : string) (self : t) : bool * t :=
  let '(popped, rest) := dict_pop username (users self) in
  (is_not_None popped, mk rest).

(** [list(self.users.keys())], as a set: no property below depends on
    the order. *)
Definition list_users (self : t) : gset string := dom (users self).

End CalendarsApp.

(** ** The program state and the calls that reach it

    The menu reaches an object the way every client does: a user through
    [app.get_user(username)], a calendar through
    [user.calendars.get(calendar_name)], and then calls one method on it.
    A call whose receiver is missing is never made. *)

(** What a call gives back: [True]/[False], [None] ([add_event] returns
    nothing), or no call at all because the receiver does not exist. *)
Inductive Outcome : Type :=
  | Returned (b : bool)
  | ReturnedNone
  | NoReceiver.

Inductive CalendarCall : Type :=
  | AddEvent (event : loc)
  | RemoveEvent (event_title : string)
  | UpdateEvent (event_title : string) (kw : Event.kwargs).

Inductive UserCall : Type :=
  | CreateCalendar (calendar_name : string)
  | RemoveCalendar (calendar_name : string)
  | UpdateCalendarName (old_name new_name : string)
  | OnCalendar (calendar_name : string) (c : CalendarCall).

Inductive DirectoryCall : Type :=
  | CreateUser (username : string)
  | DeleteUser (username : string).

Inductive AppCall : Type :=
  | OnDirectory (c : DirectoryCall)
  | OnUser (username : string) (c : UserCall).

(** The whole state: the object graph below the app, and the events. *)
Record World : Type := mkWorld {
  app : CalendarsApp.t;
  heap : store
}.

Definition call_calendar (c : CalendarCall) (σ : store) (cal : Calendar.t)
  : Outcome * store * Calendar.t :=
  match c with
  | AddEvent event => (ReturnedNone, σ, Calendar.add_event event cal)
  | RemoveEvent event_title =>
      let '(r, cal') := Calendar.remove_event event_title σ cal in
      (Returned r, σ, cal')
  | UpdateEvent event_title kw =>
      let '(r, σ') := Calendar.update_event event_title kw σ cal in
      (Returned r, σ', cal)
  end.

Definition call_user (c : UserCall) (σ : store) (u : User.t)
  : Outcome * store * User.t :=
  match c with
  | CreateCalendar calendar_name =>
      let '(r, u') := User.create_calendar calendar_name u in
      (Returned r, σ, u')
  | RemoveCalendar calendar_name =>
      let '(r, u') := User.remove_calendar calendar_name u in
      (Returned r, σ, u')
  | UpdateCalendarName old_name new_name =>
      let '(r, u') := User.update_calendar_name old_name new_name u in
      (Returned r, σ, u')
  | OnCalendar calendar_name c' =>
      match User.calendars u !! calendar_name with
      | Some cal =>
          let '(r, σ', cal') := call_calendar c' σ cal in
          (r, σ', User.set_calendars (<[calendar_name := cal']> (User.calendars u)) u)
      | None => (NoReceiver, σ, u)
      end
  end.

Definition call_directory (c : DirectoryCall) (a : CalendarsApp.t)
  : bool * CalendarsApp.t :=
  match c with
  | CreateUser username => CalendarsApp.create_user username a
  | DeleteUser username => CalendarsApp.delete_user username a
  end.

Definition call_app (c : AppCall) (w : World) : Outcome * World :=
  match c with
  | OnDirectory c' =>
      let '(r, a') := call_directory c' (app w) in
      (Returned r, mkWorld a' (heap w))
  | OnUser username c' =>
      match CalendarsApp.get_user username (app w) with
      | Some u =>
          let '(r, σ', u') := call_user c' (heap w) u in
          (r, mkWorld (CalendarsApp.mk (<[username := u']> (CalendarsApp.users (app w)))) σ')
      | None => (NoReceiver, w)
      end
  end.

(** A sequence of calls on one user, from left to right. *)
Fixpoint run_user (cs : list UserCall) (σ : store) (u : User.t)
  : store * User.t :=
  match cs with
  | [] => (σ, u)
  | c :: cs' =>
      let '(_, σ', u') := call_user c σ u in
      run_user cs' σ' u'
  end.

(** A sequence of [create_user]/[delete_user] calls, with what each call
    returned. *)
Fixpoint run_directory (cs : list DirectoryCall) (a : CalendarsApp.t)
  : list bool * CalendarsApp.t :=
  match cs with
  | [] => ([], a)
  | c :: cs' =>
      let '(r, a') := call_directory c a in
      let '(rs, a'') := run_directory cs' a' in
      (r :: rs, a'')
  end.

(** ** The properties, in the words of the specification *)

(** The username a directory call is about. *)
Definition target (c : DirectoryCall) : string :=
  match c with
  | CreateUser username => username
  | DeleteUser username => username
  end.

Definition is_create (c : DirectoryCall) : bool :=
  match c with
  | CreateUser _ => true
  | DeleteUser _ => false
  end.

(** Net effect of a sequence of calls on one name, read as insertions into
    and removals from a set of names: a create inserts it, a delete takes it
    out, calls on other names do not concern it. [inserted] says whether the
    name was in before the sequence. *)
Fixpoint net_inserted (name : string) (inserted : bool)
    (cs : list DirectoryCall) : bool :=
  match cs with
  | [] => inserted
  | c :: cs' =>
      net_inserted name
        (if String.eqb (target c) name then is_create c else inserted) cs'
  end.

(** A call was effective on [name] when it was about [name] and returned
    [True]. *)
Definition effective_on (name : string) (cr : DirectoryCall * bool) : bool :=
  String.eqb (target cr.1) name && cr.2.

(** The last effective call on [name], given the calls and their results. *)
Definition last_effective (name : string) (cs : list DirectoryCall)
    (rs : list bool) : option DirectoryCall :=
  fst <$> last (filter (λ cr, effective_on name cr = true) (zip cs rs)).

(** Key and name attribute agree for every calendar of a user. *)
Definition names_consistent (u : User.t) : Prop :=
  map_Forall (λ k cal, Calendar.name cal = k) (User.calendars u).

(** An event object with the given title sits behind the reference. *)
Definition has_title (σ : store) (event_title : string) (l : loc) : Prop :=
  ∃ evt, σ !! l = Some evt ∧ Event.title evt = event_title.

(** The reading of "all later matches unchanged" by position: whenever an
    event with the title stands after another one, the event seen behind
    the later position is the same before and after the call. *)
Definition later_matches_unchanged (σ : store) (cal : Calendar.t)
    (event_title : string) (kw : Event.kwargs) : Prop :=
  ∀ (i j : nat) (li lj : loc),
    i < j →
    Calendar.events cal !! i = Some li → has_title σ event_title li →
    Calendar.events cal !! j = Some lj → has_title σ event_title lj →
    (Calendar.update_event event_title kw σ cal).2 !! lj = σ !! lj.

(** ** Sample states for concrete runs *)

(** Three events: two with the title [standup] and one [review]. *)
Definition sample_store : store :=
  {[ 0 := Event.init "standup" 540%Z 570%Z EmptyString;
     1 := Event.init "review" 600%Z 660%Z "sprint";
     2 := Event.init "standup" 1980%Z 2010%Z "second day" ]}.

(** The calendar [work] with events [review; standup; standup]. *)
Definition sample_calendar : Calendar.t :=
  Calendar.add_event 2
    (Calendar.add_event 0 (Calendar.add_event 1 (Calendar.init "work"))).

(** User [alice] with the calendar [work]. *)
Definition sample_user : User.t :=
  User.set_calendars {[ "work" := sample_calendar ]} (User.init "alice").

Definition sample_world : World :=
  mkWorld (CalendarsApp.mk {[ "alice" := sample_user ]}) sample_store.

(** ** Further notions used by the properties below *)

(** Whether an event with the title sits behind a reference can be
    decided by looking it up. *)
#[global] Instance has_title_dec (σ : store) (event_title : string) (l : loc) :
  Decision (has_title σ event_title l).
Proof.
  unfold has_title. destruct (σ !! l) as [evt|].
  - destruct (decide (Event.title evt = event_title)) as [Ht|Ht].
    + left. exists evt. split; [reflexivity | exact Ht].
    + right. intros (evt' & Heq & Ht'). injection Heq as <-. exact (Ht Ht').
  - right. intros (evt' & Heq & _). discriminate Heq.
Defined.

(** Two [update_event] calls in a row, as one: a field given by the second
    call wins, otherwise the first call's field stands. *)
Definition kwargs_then (kw1 kw2 : Event.kwargs) : Event.kwargs :=
  Event.mk_kwargs
    (match Event.kw_title kw2 with Some v => Some v | None => Event.kw_title kw1 end)
    (match Event.kw_start_time kw2 with
     | Some v => Some v
     | None => Event.kw_start_time kw1
     end)
    (match Event.kw_end_time kw2 with
     | Some v => Some v
     | None => Event.kw_end_time kw1
     end)
    (match Event.kw_description kw2 with
     | Some v => Some v
     | None => Event.kw_description kw1
     end).

(** A sequence of calls on the app, from left to right. *)
Fixpoint run_app (cs : list AppCall) (w : World) : World :=
  match cs with
  | [] => w
  | c :: cs' => run_app cs' (call_app c w).2
  end.

(** Every user is stored under its own username and its calendars under
    their own names. *)
Definition users_named (a : CalendarsApp.t) : Prop :=
  map_Forall (λ k u, User.username u = k ∧ names_consistent u)
    (CalendarsApp.users a).

(** ** The menus: [user_menu] and [main]

    A handler is modelled by what it does to the state and by which of its
    [print] statements run; the prompts, the menu headers and the wording are
    left out.  Its arguments are the values of the variables read with
    [input(...).strip()].  The listing choices, [Go Back], [Exit] and an
    invalid choice change nothing and are not choices here: a session is the
    list of the state-changing choices made before leaving the menu. *)

(** One constructor per [print] statement of the handlers. *)
Inductive MenuLine : Type :=
  | UserCreated | UserExists | NoUserFound | UserDeleted
  | CalendarCreated | CalendarExists
  | CalendarRemoved | NoCalendarFound
  | InvalidDateTime | EventAdded
  | EventRemoved | EventNotFound
  | InvalidStartTime | InvalidEndTime
  | EventUpdated | NoEventFound
  | Renamed | RenameFailed.

Inductive UserMenuChoice : Type :=
  | ChooseCreateCalendar (cal_name : string)
  | ChooseRemoveCalendar (cal_name : string)
  | ChooseAddEvent (cal_name title start_str end_str description : string)
  | ChooseRemoveEvent (cal_name evt_title : string)
  | ChooseUpdateEvent
      (cal_name evt_title new_title start_str end_str desc_str : string)
  | ChooseRenameCalendar (old_name new_name : string).

Inductive MainChoice : Type :=
  | ChooseCreateUser (username : string)
  | ChooseSwitchUser (username : string) (session : list UserMenuChoice)
  | ChooseDeleteUser (username : string).

(** [if s:] for a string. *)
Definition truthy (s : string) : bool :=
  match s with
  | EmptyString => false
  | String _ _ => true
  end.

Section Menu.

(** [datetime.strptime(s, "%Y-%m-%d %H:%M")]: the value, or [None] where
    the library raises [ValueError].  The parser is the library's own. *)
Variable strptime : string → option datetime.

(** The dictionary [update_fields] built by choice 6: a key is set when the
    input is not empty and, for the two times, parses. *)
Definition update_fields_of_input (new_title start_str end_str desc_str : string)
  : Event.kwargs :=
  Event.mk_kwargs
    (if truthy new_title then Some new_title else None)
    (if truthy start_str then strptime start_str else None)
    (if truthy end_str then strptime end_str else None)
    (if truthy desc_str then Some desc_str else None).

(** The lines choice 6 prints while it builds [update_fields]. *)
Definition update_fields_warnings (start_str end_str : string)
  : list MenuLine :=
  (if truthy start_str && negb (is_not_None (strptime start_str))
   then [InvalidStartTime] else [])
  ++ (if truthy end_str && negb (is_not_None (strptime end_str))
      then [InvalidEndTime] else []).

(** One pass through the loop of [user_menu] for a state-changing choice.
    [Event(...)] builds a new object: its identity is one the store does not
    hold yet. *)
Definition user_menu_step (choice : UserMenuChoice) (σ : store) (user : User.t)
  : list MenuLine * store * User.t :=
  match choice with
  | ChooseCreateCalendar cal_name =>
      let '(r, user') := User.create_calendar cal_name user in
      ([if r then CalendarCreated else CalendarExists], σ, user')
  | ChooseRemoveCalendar cal_name =>
      let '(r, user') := User.remove_calendar cal_name user in
      ([if r then CalendarRemoved else NoCalendarFound], σ, user')
  | ChooseAddEvent cal_name title start_str end_str description =>
      match User.calendars user !! cal_name with
      | None => ([NoCalendarFound], σ, user)
      | Some calendar =>
          match strptime start_str, strptime end_str with
          | Some start_dt, Some end_dt =>
              let new_event :=
                create_event (Calendar.event_factory calendar)
                  title start_dt end_dt description in
              let l := fresh (dom σ) in
              ([EventAdded], <[l := new_event]> σ,
               User.set_calendars
                 (<[cal_name := Calendar.add_event l calendar]>
                    (User.calendars user)) user)
          | _, _ => ([InvalidDateTime], σ, user)
          end
      end
  | ChooseRemoveEvent cal_name evt_title =>
      match User.calendars user !! cal_name with
      | None => ([NoCalendarFound], σ, user)
      | Some calendar =>
          let '(r, calendar') := Calendar.remove_event evt_title σ calendar in
          ([if r then EventRemoved else EventNotFound], σ,
           User.set_calendars
             (<[cal_name := calendar']> (User.calendars user)) user)
      end
  | ChooseUpdateEvent cal_name evt_title new_title start_str end_str desc_str =>
      match User.calendars user !! cal_name with
      | None => ([NoCalendarFound], σ, user)
      | Some calendar =>
          let update_fields :=
            update_fields_of_input new_title start_str end_str desc_str in
          let '(r, σ') :=
            Calendar.update_event evt_title update_fields σ calendar in
          (update_fields_warnings start_str end_str
             ++ [if r then EventUpdated else NoEventFound], σ', user)
      end
  | ChooseRenameCalendar old_name new_name =>
      let '(r, user') := User.update_calendar_name old_name new_name user in
      ([if r then Renamed else RenameFailed], σ, user')
  end.

(** A whole stay in [user_menu], up to [Go Back]. *)
Fixpoint run_user_menu (session : list UserMenuChoice) (σ : store)
    (user : User.t) : list MenuLine * store * User.t :=
  match session with
  | [] => ([], σ, user)
  | choice :: session' =>
      let '(out, σ', user') := user_menu_step choice σ user in
      let '(out', σ'', user'') := run_user_menu session' σ' user' in
      (out ++ out', σ'', user'')
  end.

(** One pass through the loop of [main] for a state-changing choice. *)
Definition main_step (choice : MainChoice) (w : World)
  : list MenuLine * World :=
  match choice with
  | ChooseCreateUser username =>
      let '(r, a') := CalendarsApp.create_user username (app w) in
      ([if r then UserCreated else UserExists], mkWorld a' (heap w))
  | ChooseSwitchUser username session =>
      match CalendarsApp.get_user username (app w) with
      | Some user =>
          let '(out, σ', user') := run_user_menu session (heap w) user in
          (out,
           mkWorld
             (CalendarsApp.mk
                (<[username := user']> (CalendarsApp.users (app w)))) σ')
      | None => ([NoUserFound], w)
      end
  | ChooseDeleteUser username =>
      let '(r, a') := CalendarsApp.delete_user username (app w) in
      ([if r then UserDeleted else NoUserFound], mkWorld a' (heap w))
  end.

(** The program: [main] starts from a new app and runs its loop. *)
Fixpoint run_main (choices : list MainChoice) (w : World)
  : list MenuLine * World :=
  match choices with
  | [] => ([], w)
  | choice :: choices' =>
      let '(out, w') := main_step choice w in
      let '(out', w'') := run_main choices' w' in
      (out ++ out', w'')
  end.

End Menu.

(** No event object is in the calendar's list twice, and every reference
    of the list points into the store. *)
Definition calendar_unshared (σ : store) (cal : Calendar.t) : Prop :=
  NoDup (Calendar.events cal)
  ∧ Forall (λ l, is_Some (σ !! l)) (Calendar.events cal).

Definition user_wf (σ : store) (k : string) (u : User.t) : Prop :=
  User.username u = k
  ∧ names_consistent u
  ∧ map_Forall (λ _ cal, calendar_unshared σ cal) (User.calendars u).

Definition world_wf (w : World) : Prop :=
  map_Forall (user_wf (heap w)) (CalendarsApp.users (app w)).

(** The calendar stored under [c] holds a reference to the event [l]. *)
Definition holds (m : gmap string Calendar.t) (c : string) (l : loc) : Prop :=
  ∃ cal, m !! c = Some cal ∧ l ∈ Calendar.events cal.

(** No event object is held by two calendars of the app. *)
Definition world_unshared (w : World) : Prop :=
  ∀ n1 n2 u1 u2 c1 c2 l,
    CalendarsApp.users (app w) !! n1 = Some u1 →
    CalendarsApp.users (app w) !! n2 = Some u2 →
    holds (User.calendars u1) c1 l →
    holds (User.calendars u2) c2 l →
    n1 = n2 ∧ c1 = c2.

(** A toy parser for concrete runs: one accepted spelling per value. *)
Definition sample_strptime (s : string) : option datetime :=
  if String.eqb s "2024-01-01 09:00" then Some 540%Z
  else if String.eqb s "2024-01-01 09:30" then Some 570%Z
  else None.

(** A run of the program: create [alice], enter her menu, create [work]
    and add two events titled [standup]. *)
Definition sample_choices : list MainChoice :=
  [ChooseCreateUser "alice";
   ChooseSwitchUser "alice"
     [ChooseCreateCalendar "work";
      ChooseAddEvent "work" "standup" "2024-01-01 09:00" "2024-01-01 09:30"
        "first";
      ChooseAddEvent "work" "standup" "2024-01-01 09:00" "2024-01-01 09:30"
        "second"]].

(** The calendar and the user that run leaves behind. *)
Definition sample_menu_calendar : Calendar.t :=
  Calendar.mk "work" [0; 1] DefaultEventFactory.

Definition sample_menu_user : User.t :=
  User.mk "alice" {[ "work" := sample_menu_calendar ]}.

(** A new app and an empty store: the state [main] starts from. *)
Definition initial_world : World := mkWorld CalendarsApp.init ∅.

(** * Proofs *)

(** ** Dictionaries and records *)

Lemma dict_contains_true {A} (k : string) (d : gmap string A) :
  dict_contains k d = true ↔ is_Some (d !! k).
Proof.
  unfold dict_contains. destruct (d !! k) as [v|]; split; intros H.
  - by exists v.
  - done.
  - done.
  - by destruct H.
Qed.

Lemma dict_contains_false {A} (k : string) (d : gmap string A) :
  dict_contains k d = false ↔ d !! k = None.
Proof. unfold dict_contains. by destruct (d !! k). Qed.

Lemma is_not_None_false {A} (x : option A) : is_not_None x = false ↔ x = None.
Proof. by destruct x. Qed.

Lemma user_eta (u : User.t) : User.set_calendars (User.calendars u) u = u.
Proof. by destruct u. Qed.

Lemma calendar_eta (cal : Calendar.t) :
  Calendar.set_events (Calendar.events cal) cal = cal.
Proof. by destruct cal. Qed.

Lemma app_eta (a : CalendarsApp.t) : CalendarsApp.mk (CalendarsApp.users a) = a.
Proof. by destruct a. Qed.

Lemma world_eta (w : World) : mkWorld (app w) (heap w) = w.
Proof. by destruct w. Qed.

(** ** Event *)

Lemma update_event_no_kwargs (evt : Event.t) :
  Event.update_event Event.no_kwargs evt = evt.
Proof. reflexivity. Qed.

(** C8: a field that is not given keeps its value and a field that is given
    takes the new one; with only [description] given, [title], [start_time]
    and [end_time] are unchanged and [description] is the new value. *)
Theorem C8_update_event_only_given_fields :
  ∀ (evt : Event.t) (kw : Event.kwargs) (d : string),
    let evt' := Event.update_event kw evt in
    let evt_d :=
      Event.update_event (Event.mk_kwargs None None None (Some d)) evt in
    (Event.title evt' = default (Event.title evt) (Event.kw_title kw)
     ∧ Event.start_time evt'
       = default (Event.start_time evt) (Event.kw_start_time kw)
     ∧ Event.end_time evt' = default (Event.end_time evt) (Event.kw_end_time kw)
     ∧ Event.description evt'
       = default (Event.description evt) (Event.kw_description kw))
    ∧ (Event.description evt_d = d
       ∧ Event.title evt_d = Event.title evt
       ∧ Event.start_time evt_d = Event.start_time evt
       ∧ Event.end_time evt_d = Event.end_time evt).
Proof.
  intros evt [kt ks ke kd] d. cbn zeta. split.
  - destruct kt, ks, ke, kd; repeat split.
  - repeat split.
Qed.

(** ** User *)

(** C4: renaming a calendar to its own name returns [False], whether or
    not a calendar of that name exists (and nothing changes). *)
Theorem C4_rename_to_itself_fails :
  ∀ (u : User.t) (calendar_name : string),
    User.update_calendar_name calendar_name calendar_name u = (false, u).
Proof.
  intros u n. unfold User.update_calendar_name.
  by destruct (dict_contains n (User.calendars u)).
Qed.

Lemma remove_calendar_absent (n : string) (u : User.t) :
  User.calendars (User.remove_calendar n u).2 !! n = None.
Proof. unfold User.remove_calendar, dict_pop. cbn. apply lookup_delete_eq. Qed.

(** C7: after a [remove_calendar] that returned [True], [create_calendar]
    with the same name returns [True] and the calendar stored under the name
    is the freshly built one, whose event list is empty. *)
Theorem C7_remove_then_create_is_fresh :
  ∀ (u : User.t) (calendar_name : string),
    (User.remove_calendar calendar_name u).1 = true →
    let u1 := (User.remove_calendar calendar_name u).2 in
    (User.create_calendar calendar_name u1).1 = true
    ∧ User.calendars (User.create_calendar calendar_name u1).2 !! calendar_name
      = Some (Calendar.init calendar_name)
    ∧ Calendar.events (Calendar.init calendar_name) = [].
Proof.
  intros u n _ u1.
  assert (Hnone : dict_contains n (User.calendars u1) = false).
  { apply dict_contains_false, remove_calendar_absent. }
  unfold User.create_calendar. rewrite Hnone. cbn.
  split; [done|]. split; [|done]. apply lookup_insert_eq.
Qed.

(** ** CalendarsApp *)

Lemma create_user_present (n : string) (a : CalendarsApp.t) :
  is_Some (CalendarsApp.users (CalendarsApp.create_user n a).2 !! n).
Proof.
  unfold CalendarsApp.create_user.
  destruct (dict_contains n (CalendarsApp.users a)) eqn:E; cbn.
  - by apply dict_contains_true.
  - rewrite lookup_insert_eq. by eexists.
Qed.

(** C6: the second of two [create_user] calls in a row with the same name
    returns [False], and the number of users is what it was after the first
    call. *)
Theorem C6_create_user_twice :
  ∀ (a : CalendarsApp.t) (username : string),
    let a1 := (CalendarsApp.create_user username a).2 in
    let second := CalendarsApp.create_user username a1 in
    second.1 = false
    ∧ size (CalendarsApp.users second.2) = size (CalendarsApp.users a1).
Proof.
  intros a n a1 second.
  assert (H : dict_contains n (CalendarsApp.users a1) = true).
  { apply dict_contains_true, create_user_present. }
  subst second. unfold CalendarsApp.create_user. by rewrite H.
Qed.

(** ** Calendar: the scan for the first matching event *)

Lemma matches_at_has_title (σ : store) (t : string) (l : loc) :
  Calendar.matches_at σ t l = true ↔ has_title σ t l.
Proof.
  unfold Calendar.matches_at, has_title, Event.matches_title.
  destruct (σ !! l) as [evt|]; split.
  - intros H. exists evt. split; [done|]. by apply String.eqb_eq.
  - intros (evt' & [= <-] & Ht). by apply String.eqb_eq.
  - done.
  - by intros (evt' & ? & _).
Qed.

Lemma matches_at_no_title (σ : store) (t : string) (l : loc) :
  Calendar.matches_at σ t l = false ↔ ¬ has_title σ t l.
Proof.
  rewrite <- matches_at_has_title.
  destruct (Calendar.matches_at σ t l); split; congruence.
Qed.

Lemma first_match_None (σ : store) (t : string) (evs : list loc) (i : nat) :
  Calendar.first_match σ t evs i = None ↔ Forall (λ l, ¬ has_title σ t l) evs.
Proof.
  revert i. induction evs as [|l evs IH]; intros i; cbn.
  - split; [constructor|done].
  - destruct (Calendar.matches_at σ t l) eqn:E.
    + split; [done|]. intros H. inversion H as [|? ? Hl _]; subst.
      by apply matches_at_has_title in E.
    + rewrite IH. split.
      * intros H. constructor; [by apply matches_at_no_title|done].
      * intros H. by inversion H.
Qed.

Lemma first_match_at (σ : store) (t : string) (before after : list loc)
    (l : loc) (i : nat) :
  Forall (λ l', ¬ has_title σ t l') before →
  has_title σ t l →
  Calendar.first_match σ t (before ++ l :: after) i
  = Some (i + length before, l).
Proof.
  intros Hb Hl. revert i.
  induction Hb as [|l' before Hl' _ IH]; intros i; cbn.
  - apply matches_at_has_title in Hl. rewrite Hl. do 2 f_equal. lia.
  - apply matches_at_no_title in Hl'. rewrite Hl', IH. do 2 f_equal. lia.
Qed.

Lemma first_match_split (σ : store) (t : string) (evs : list loc)
    (i j : nat) (l : loc) :
  Calendar.first_match σ t evs i = Some (j, l) →
  ∃ before after,
    evs = before ++ l :: after
    ∧ Forall (λ l', ¬ has_title σ t l') before
    ∧ has_title σ t l
    ∧ j = i + length before.
Proof.
  revert i. induction evs as [|l' evs IH]; intros i; cbn; [done|].
  destruct (Calendar.matches_at σ t l') eqn:E.
  - intros [= <- <-]. exists [], evs. cbn.
    split; [done|]. split; [constructor|].
    split; [by apply matches_at_has_title | lia].
  - intros H. destruct (IH _ H) as (before & after & -> & Hb & Hl & ->).
    exists (l' :: before), after. cbn.
    split; [done|]. split; [|split; [done|lia]].
    constructor; [by apply matches_at_no_title | done].
Qed.

(** The first matching event exists exactly when some event of the list
    has the title. *)
Lemma first_match_is_Some (σ : store) (t : string) (evs : list loc) :
  is_Some (Calendar.first_match σ t evs 0)
  ↔ ∃ l, l ∈ evs ∧ has_title σ t l.
Proof.
  split.
  - intros [[j l] H].
    destruct (first_match_split _ _ _ _ _ _ H) as (b & a & -> & _ & Hl & _).
    exists l. split; [set_solver | done].
  - intros (l & Hin & Hl).
    destruct (Calendar.first_match σ t evs 0) eqn:E; [by eexists|].
    apply first_match_None in E. rewrite Forall_forall in E.
    by destruct (E l Hin).
Qed.

(** What [remove_event] does when the first event with the title is at the
    end of [before]. *)
Lemma remove_event_at (σ : store) (cal : Calendar.t) (t : string)
    (before after : list loc) (l : loc) :
  Calendar.events cal = before ++ l :: after →
  Forall (λ l', ¬ has_title σ t l') before →
  has_title σ t l →
  Calendar.remove_event t σ cal
  = (true, Calendar.set_events (before ++ after) cal).
Proof.
  intros Hev Hb Hl. unfold Calendar.remove_event.
  rewrite Hev, (first_match_at _ _ _ _ _ 0 Hb Hl). cbn.
  by rewrite delete_middle.
Qed.

Lemma remove_event_false (σ : store) (cal : Calendar.t) (t : string) :
  (Calendar.remove_event t σ cal).1 = false →
  (Calendar.remove_event t σ cal).2 = cal.
Proof.
  unfold Calendar.remove_event.
  by destruct (Calendar.first_match σ t (Calendar.events cal) 0) as [[i l]|].
Qed.

Lemma calendar_update_event_false (σ : store) (cal : Calendar.t)
    (t : string) (kw : Event.kwargs) :
  (Calendar.update_event t kw σ cal).1 = false →
  (Calendar.update_event t kw σ cal).2 = σ.
Proof.
  unfold Calendar.update_event.
  by destruct (Calendar.first_match σ t (Calendar.events cal) 0) as [[i l]|].
Qed.

(** What [update_event] does when the first event with the title is at the
    end of [before]: one object of the store is replaced by its update. *)
Lemma calendar_update_event_at (σ : store) (cal : Calendar.t) (t : string)
    (kw : Event.kwargs) (before after : list loc) (l : loc) (evt : Event.t) :
  Calendar.events cal = before ++ l :: after →
  Forall (λ l', ¬ has_title σ t l') before →
  σ !! l = Some evt →
  Event.title evt = t →
  Calendar.update_event t kw σ cal
  = (true, <[l := Event.update_event kw evt]> σ).
Proof.
  intros Hev Hb Hl Ht. unfold Calendar.update_event.
  assert (Hhas : has_title σ t l) by (by exists evt).
  rewrite Hev, (first_match_at _ _ _ _ _ 0 Hb Hhas). f_equal.
  apply map_eq. intros l'. rewrite lookup_alter, lookup_insert.
  case_decide; [subst l'; by rewrite Hl | done].
Qed.

(** ** Calendar: removing and updating by title *)

(** C3: in a calendar with (at least) two events of the same title, at
    positions [i < j], [remove_event] returns [True]; the event taken out is
    the first one with the title (no event before it has the title, and it is
    not after position [i]); the list that remains is the old list without
    that one entry, in the old order; the later duplicate is still there, one
    position earlier. *)
Theorem C3_remove_event_earliest_duplicate :
  ∀ (σ : store) (cal : Calendar.t) (event_title : string)
    (i j : nat) (li lj : loc),
    i < j →
    Calendar.events cal !! i = Some li → has_title σ event_title li →
    Calendar.events cal !! j = Some lj → has_title σ event_title lj →
    ∃ before l after,
      Calendar.events cal = before ++ l :: after
      ∧ Forall (λ l', ¬ has_title σ event_title l') before
      ∧ has_title σ event_title l
      ∧ length before ≤ i
      ∧ Calendar.remove_event event_title σ cal
        = (true, Calendar.set_events (before ++ after) cal)
      ∧ (before ++ after) !! (j - 1) = Some lj.
Proof.
  intros σ cal t i j li lj Hij Hi Hli Hj Hlj.
  assert (Hsome : is_Some (Calendar.first_match σ t (Calendar.events cal) 0)).
  { apply first_match_is_Some. exists li.
    split; [by eapply list_elem_of_lookup_2 | done]. }
  destruct Hsome as [[p l] Hp].
  destruct (first_match_split _ _ _ _ _ _ Hp) as (b & a & Hev & Hb & Hl & _).
  exists b, l, a.
  assert (Hle : length b ≤ i).
  { destruct (decide (length b ≤ i)) as [|Hlt]; [done|].
    rewrite Hev, lookup_app_l in Hi by lia.
    rewrite Forall_forall in Hb.
    destruct (Hb li); [by eapply list_elem_of_lookup_2 | done]. }
  split; [done|]. split; [done|]. split; [done|]. split; [done|].
  split; [by apply (remove_event_at _ _ _ b a l)|].
  rewrite Hev, lookup_app_r in Hj by lia.
  rewrite lookup_app_r by lia.
  rewrite lookup_cons_ne_0 in Hj by lia.
  rewrite <- Hj. f_equal. lia.
Qed.

(** C9, with the effect stated per object: [update_event] returns [True]
    exactly when some event
    of the list has the title.  The update is applied to one object, the
    event at the first position with the title: that object becomes its
    update and every other object of the store is unchanged (the calendar's
    list is not touched at all).  Later matches are therefore unchanged when
    the list holds no object twice. *)
Theorem C9_update_event_first_match_only :
  ∀ (σ : store) (cal : Calendar.t) (event_title : string)
    (kw : Event.kwargs),
    let result := Calendar.update_event event_title kw σ cal in
    (result.1 = true
     ↔ ∃ l, l ∈ Calendar.events cal ∧ has_title σ event_title l)
    ∧ (∀ before l after evt,
         Calendar.events cal = before ++ l :: after →
         Forall (λ l', ¬ has_title σ event_title l') before →
         σ !! l = Some evt →
         Event.title evt = event_title →
         result.2 !! l = Some (Event.update_event kw evt)
         ∧ ∀ l', l' ≠ l → result.2 !! l' = σ !! l')
    ∧ (NoDup (Calendar.events cal) →
       later_matches_unchanged σ cal event_title kw).
Proof.
  intros σ cal t kw result. subst result. split; [|split].
  - rewrite <- first_match_is_Some. unfold Calendar.update_event.
    destruct (Calendar.first_match σ t (Calendar.events cal) 0) as [[p l]|].
    + split; [by eexists | done].
    + split; [done | by intros [? ?]].
  - intros b l a evt Hev Hb Hl Ht.
    rewrite (calendar_update_event_at _ _ _ kw _ _ _ _ Hev Hb Hl Ht). cbn.
    split; [apply lookup_insert_eq|].
    intros l' Hne. by apply lookup_insert_ne.
  - intros Hnd i j li lj Hij Hi Hli Hj Hlj.
    unfold Calendar.update_event.
    destruct (Calendar.first_match σ t (Calendar.events cal) 0)
      as [[p l]|] eqn:Hp; [|done].
    cbn. apply lookup_alter_ne.
    destruct (first_match_split _ _ _ _ _ _ Hp) as (b & a & Hev & Hb & _ & _).
    assert (Hle : length b ≤ i).
    { destruct (decide (length b ≤ i)) as [|Hlt]; [done|].
      rewrite Hev, lookup_app_l in Hi by lia.
      rewrite Forall_forall in Hb.
      destruct (Hb li); [by eapply list_elem_of_lookup_2 | done]. }
    intros <-.
    assert (Hpl : Calendar.events cal !! length b = Some l).
    { rewrite Hev. apply list_lookup_middle. done. }
    assert (length b = j) by (by eapply NoDup_lookup).
    lia.
Qed.

(** C9 as stated does not hold when the same object is in the list twice:
    with the event [standup] appended two times, an update of its
    description shows behind the second position as well. *)
Lemma C9_later_match_changes_when_shared :
  let standup := Event.init "standup" 0%Z 30%Z EmptyString in
  let σ : store := {[ 0 := standup ]} in
  let cal := Calendar.add_event 0 (Calendar.add_event 0 (Calendar.init "work")) in
  let kw := Event.mk_kwargs None None None (Some "daily") in
  ¬ later_matches_unchanged σ cal "standup" kw.
Proof.
  intros standup σ cal kw H.
  assert (Hhas : has_title σ "standup" 0) by (by exists standup).
  specialize (H 0 1 0 0 ltac:(lia) eq_refl Hhas eq_refl Hhas).
  vm_compute in H. discriminate H.
Qed.

(** C10: when an event of the calendar has the title, [update_event] with
    no field to update returns [True] and changes neither the store (so no
    event, the matched one included) nor the calendar. *)
Theorem C10_update_event_without_fields :
  ∀ (σ : store) (cal : Calendar.t) (event_title : string),
    (∃ l, l ∈ Calendar.events cal ∧ has_title σ event_title l) →
    Calendar.update_event event_title Event.no_kwargs σ cal = (true, σ)
    ∧ call_calendar (UpdateEvent event_title Event.no_kwargs) σ cal
      = (Returned true, σ, cal).
Proof.
  intros σ cal t Hex. apply first_match_is_Some in Hex as [[p l] Hp].
  assert (H : Calendar.update_event t Event.no_kwargs σ cal = (true, σ)).
  { unfold Calendar.update_event. rewrite Hp. f_equal.
    apply alter_id. intros evt _. apply update_event_no_kwargs. }
  split; [done|]. cbn. by rewrite H.
Qed.

(** ** A call that returns [False] changes nothing *)

Lemma create_user_false (n : string) (a : CalendarsApp.t) :
  (CalendarsApp.create_user n a).1 = false →
  (CalendarsApp.create_user n a).2 = a.
Proof.
  unfold CalendarsApp.create_user.
  by destruct (dict_contains n (CalendarsApp.users a)).
Qed.

Lemma delete_user_false (n : string) (a : CalendarsApp.t) :
  (CalendarsApp.delete_user n a).1 = false →
  (CalendarsApp.delete_user n a).2 = a.
Proof.
  unfold CalendarsApp.delete_user, dict_pop. cbn.
  intros H%is_not_None_false. rewrite delete_id by done. apply app_eta.
Qed.

Lemma create_calendar_false (n : string) (u : User.t) :
  (User.create_calendar n u).1 = false → (User.create_calendar n u).2 = u.
Proof.
  unfold User.create_calendar.
  by destruct (dict_contains n (User.calendars u)).
Qed.

Lemma remove_calendar_false (n : string) (u : User.t) :
  (User.remove_calendar n u).1 = false → (User.remove_calendar n u).2 = u.
Proof.
  unfold User.remove_calendar, dict_pop. cbn.
  intros H%is_not_None_false. rewrite delete_id by done. apply user_eta.
Qed.

Lemma update_calendar_name_false (old_name new_name : string) (u : User.t) :
  (User.update_calendar_name old_name new_name u).1 = false →
  (User.update_calendar_name old_name new_name u).2 = u.
Proof.
  unfold User.update_calendar_name, dict_pop.
  destruct (negb (dict_contains old_name (User.calendars u))
            || dict_contains new_name (User.calendars u)); [done|].
  by destruct (User.calendars u !! old_name).
Qed.

Lemma call_calendar_false (c : CalendarCall) (σ : store) (cal : Calendar.t) :
  (call_calendar c σ cal).1.1 = Returned false →
  call_calendar c σ cal = (Returned false, σ, cal).
Proof.
  destruct c as [event|t|t kw]; unfold call_calendar.
  - done.
  - pose proof (remove_event_false σ cal t) as H.
    destruct (Calendar.remove_event t σ cal) as [r cal']. cbn in *.
    intros [= ->]. by rewrite H.
  - pose proof (calendar_update_event_false σ cal t kw) as H.
    destruct (Calendar.update_event t kw σ cal) as [r σ']. cbn in *.
    intros [= ->]. by rewrite H.
Qed.

Lemma call_user_false (c : UserCall) (σ : store) (u : User.t) :
  (call_user c σ u).1.1 = Returned false →
  call_user c σ u = (Returned false, σ, u).
Proof.
  destruct c as [n|n|old_name new_name|n c]; unfold call_user.
  - pose proof (create_calendar_false n u) as H.
    destruct (User.create_calendar n u) as [r u']. cbn in *.
    intros [= ->]. by rewrite H.
  - pose proof (remove_calendar_false n u) as H.
    destruct (User.remove_calendar n u) as [r u']. cbn in *.
    intros [= ->]. by rewrite H.
  - pose proof (update_calendar_name_false old_name new_name u) as H.
    destruct (User.update_calendar_name old_name new_name u) as [r u'].
    cbn in *. intros [= ->]. by rewrite H.
  - destruct (User.calendars u !! n) as [cal|] eqn:Hcal; [|done].
    pose proof (call_calendar_false c σ cal) as H.
    destruct (call_calendar c σ cal) as [[r σ'] cal']. cbn in *.
    intros Hr. specialize (H Hr). injection H as -> -> ->.
    by rewrite insert_id, user_eta.
Qed.

(** C2: whichever mutating method is called, on whichever user and
    calendar, when it returns [False] the whole state (every user, every
    calendar, every event) is what it was before the call. *)
Theorem C2_returning_False_changes_nothing :
  ∀ (c : AppCall) (w : World),
    (call_app c w).1 = Returned false → (call_app c w).2 = w.
Proof.
  intros [c|n c] w; unfold call_app.
  - destruct c as [n|n]; unfold call_directory.
    + pose proof (create_user_false n (app w)) as H.
      destruct (CalendarsApp.create_user n (app w)) as [r a']. cbn in *.
      intros [= ->]. rewrite H by done. apply world_eta.
    + pose proof (delete_user_false n (app w)) as H.
      destruct (CalendarsApp.delete_user n (app w)) as [r a']. cbn in *.
      intros [= ->]. rewrite H by done. apply world_eta.
  - unfold CalendarsApp.get_user.
    destruct (CalendarsApp.users (app w) !! n) as [u|] eqn:Hu; [|done].
    pose proof (call_user_false c (heap w) u) as H.
    destruct (call_user c (heap w) u) as [[r σ'] u']. cbn in *.
    intros Hr. specialize (H Hr). injection H as -> -> ->.
    by rewrite insert_id, app_eta, world_eta.
Qed.

(** ** Sequences of [create_user] and [delete_user] *)

Lemma create_user_lookup (n m : string) (a : CalendarsApp.t) :
  dict_contains m (CalendarsApp.users (CalendarsApp.create_user n a).2)
  = if String.eqb n m then true else dict_contains m (CalendarsApp.users a).
Proof.
  unfold CalendarsApp.create_user.
  destruct (dict_contains n (CalendarsApp.users a)) eqn:E; cbn.
  - destruct (String.eqb_spec n m) as [<-|]; done.
  - unfold dict_contains at 1.
    destruct (String.eqb_spec n m) as [<-|Hne].
    + by rewrite lookup_insert_eq.
    + by rewrite lookup_insert_ne.
Qed.

Lemma delete_user_lookup (n m : string) (a : CalendarsApp.t) :
  dict_contains m (CalendarsApp.users (CalendarsApp.delete_user n a).2)
  = if String.eqb n m then false else dict_contains m (CalendarsApp.users a).
Proof.
  unfold CalendarsApp.delete_user, dict_pop, dict_contains. cbn.
  destruct (String.eqb_spec n m) as [<-|Hne].
  - by rewrite lookup_delete_eq.
  - by rewrite lookup_delete_ne.
Qed.

(** Presence of [name] after one call, by the call alone. *)
Lemma call_directory_lookup (c : DirectoryCall) (a : CalendarsApp.t)
    (name : string) :
  dict_contains name (CalendarsApp.users (call_directory c a).2)
  = if String.eqb (target c) name then is_create c
    else dict_contains name (CalendarsApp.users a).
Proof.
  destruct c as [n|n]; cbn [call_directory target is_create].
  - apply create_user_lookup.
  - apply delete_user_lookup.
Qed.

Lemma call_directory_false (c : DirectoryCall) (a : CalendarsApp.t) :
  (call_directory c a).1 = false → (call_directory c a).2 = a.
Proof.
  destruct c as [n|n]; [apply create_user_false | apply delete_user_false].
Qed.

(** Presence of [name] after one call, by whether the call was effective. *)
Lemma call_directory_effective (c : DirectoryCall) (a : CalendarsApp.t)
    (name : string) :
  dict_contains name (CalendarsApp.users (call_directory c a).2)
  = if effective_on name (c, (call_directory c a).1) then is_create c
    else dict_contains name (CalendarsApp.users a).
Proof.
  unfold effective_on. cbn [fst snd].
  destruct ((call_directory c a).1) eqn:Hr.
  - rewrite andb_true_r. apply call_directory_lookup.
  - rewrite andb_false_r. by rewrite call_directory_false.
Qed.

Lemma run_directory_cons (c : DirectoryCall) (cs : list DirectoryCall)
    (a : CalendarsApp.t) :
  run_directory (c :: cs) a
  = ((call_directory c a).1 :: (run_directory cs (call_directory c a).2).1,
     (run_directory cs (call_directory c a).2).2).
Proof.
  cbn. destruct (call_directory c a) as [r a']. cbn.
  by destruct (run_directory cs a').
Qed.

Lemma run_directory_net_inserted (cs : list DirectoryCall)
    (a : CalendarsApp.t) (name : string) :
  dict_contains name (CalendarsApp.users (run_directory cs a).2)
  = net_inserted name (dict_contains name (CalendarsApp.users a)) cs.
Proof.
  revert a. induction cs as [|c cs IH]; intros a; [done|].
  rewrite run_directory_cons. cbn [snd net_inserted].
  by rewrite IH, call_directory_lookup.
Qed.

Lemma last_effective_cons (name : string) (c : DirectoryCall) (r : bool)
    (cs : list DirectoryCall) (rs : list bool) :
  last_effective name (c :: cs) (r :: rs)
  = match last_effective name cs rs with
    | Some c' => Some c'
    | None => if effective_on name (c, r) then Some c else None
    end.
Proof.
  unfold last_effective. cbn [zip zip_with]. rewrite filter_cons.
  destruct (effective_on name (c, r)) eqn:E.
  - rewrite decide_True by done. rewrite last_cons.
    by destruct (last _) as [[c' r']|].
  - rewrite decide_False by done.
    by destruct (last _) as [[c' r']|].
Qed.

Lemma run_directory_last_effective (cs : list DirectoryCall)
    (a : CalendarsApp.t) (name : string) :
  dict_contains name (CalendarsApp.users (run_directory cs a).2)
  = match last_effective name cs (run_directory cs a).1 with
    | Some c => is_create c
    | None => dict_contains name (CalendarsApp.users a)
    end.
Proof.
  revert a. induction cs as [|c cs IH]; intros a; [done|].
  rewrite run_directory_cons. cbn [fst snd].
  rewrite last_effective_cons, IH.
  destruct (last_effective name cs _); [done|].
  rewrite call_directory_effective.
  by destruct (effective_on name _).
Qed.

(** C1: after any sequence of [create_user] and [delete_user] calls,
    [get_user(name)] is present exactly when the net effect of the sequence
    leaves [name] inserted; said with the calls' results, exactly when the
    last call on [name] that returned [True] was a create (or, when no call
    on [name] returned [True], when [name] was there before; on a new app
    it was not). *)
Theorem C1_get_user_present_iff_net_inserted :
  ∀ (cs : list DirectoryCall) (name : string) (a : CalendarsApp.t),
    let rs := (run_directory cs a).1 in
    let a' := (run_directory cs a).2 in
    let fresh := run_directory cs CalendarsApp.init in
    (is_Some (CalendarsApp.get_user name a')
     ↔ net_inserted name (dict_contains name (CalendarsApp.users a)) cs = true)
    ∧ (is_Some (CalendarsApp.get_user name a')
       ↔ match last_effective name cs rs with
         | Some c => is_create c = true
         | None => is_Some (CalendarsApp.get_user name a)
         end)
    ∧ (is_Some (CalendarsApp.get_user name fresh.2)
       ↔ ∃ n, last_effective name cs fresh.1 = Some (CreateUser n)).
Proof.
  intros cs name a rs a' fresh. subst rs a' fresh.
  unfold CalendarsApp.get_user. split; [|split].
  - by rewrite <- dict_contains_true, run_directory_net_inserted.
  - rewrite <- dict_contains_true, run_directory_last_effective.
    destruct (last_effective name cs _); [done|].
    by rewrite dict_contains_true.
  - rewrite <- dict_contains_true, run_directory_last_effective.
    destruct (last_effective name cs _) as [[n|n]|]; cbn.
    + split; [by eexists | done].
    + split; [done | by intros [? ?]].
    + split; [done | by intros [? ?]].
Qed.

(** ** Key and name of a calendar *)

Lemma names_consistent_init (username : string) :
  names_consistent (User.init username).
Proof. apply map_Forall_empty. Qed.

Lemma create_calendar_consistent (n : string) (u : User.t) :
  names_consistent u → names_consistent (User.create_calendar n u).2.
Proof.
  unfold names_consistent, User.create_calendar. intros H.
  destruct (dict_contains n (User.calendars u)); cbn; [done|].
  by apply map_Forall_insert_2.
Qed.

Lemma remove_calendar_consistent (n : string) (u : User.t) :
  names_consistent u → names_consistent (User.remove_calendar n u).2.
Proof.
  unfold names_consistent, User.remove_calendar, dict_pop. cbn.
  apply map_Forall_delete.
Qed.

(** A successful rename: the calendar is under the new key, carries the new
    name, and the old key is free. *)
Lemma update_calendar_name_success (old_name new_name : string) (u : User.t) :
  (User.update_calendar_name old_name new_name u).1 = true →
  ∃ cal,
    User.calendars u !! old_name = Some cal
    ∧ User.calendars u !! new_name = None
    ∧ (User.update_calendar_name old_name new_name u).2
      = User.set_calendars
          (<[new_name := Calendar.set_name new_name cal]>
             (delete old_name (User.calendars u))) u.
Proof.
  unfold User.update_calendar_name, dict_pop.
  destruct (dict_contains old_name (User.calendars u)) eqn:Eold; [|done].
  destruct (dict_contains new_name (User.calendars u)) eqn:Enew; [done|].
  cbn. apply dict_contains_false in Enew.
  destruct (User.calendars u !! old_name) as [cal|]; [|done].
  intros _. by exists cal.
Qed.

Lemma update_calendar_name_consistent (old_name new_name : string)
    (u : User.t) :
  names_consistent u →
  names_consistent (User.update_calendar_name old_name new_name u).2.
Proof.
  intros H.
  destruct ((User.update_calendar_name old_name new_name u).1) eqn:Hr.
  - destruct (update_calendar_name_success _ _ _ Hr) as (cal & _ & _ & ->).
    unfold names_consistent. cbn.
    apply map_Forall_insert_2; [done|]. by apply map_Forall_delete.
  - by rewrite update_calendar_name_false.
Qed.

Lemma call_calendar_name (c : CalendarCall) (σ : store) (cal : Calendar.t) :
  Calendar.name (call_calendar c σ cal).2 = Calendar.name cal.
Proof.
  destruct c as [event|t|t kw]; unfold call_calendar.
  - done.
  - unfold Calendar.remove_event.
    by destruct (Calendar.first_match σ t (Calendar.events cal) 0)
      as [[i l]|].
  - by destruct (Calendar.update_event t kw σ cal).
Qed.

Lemma call_user_consistent (c : UserCall) (σ : store) (u : User.t) :
  names_consistent u → names_consistent (call_user c σ u).2.
Proof.
  intros H. destruct c as [n|n|old_name new_name|n c]; unfold call_user.
  - pose proof (create_calendar_consistent n u H).
    by destruct (User.create_calendar n u).
  - pose proof (remove_calendar_consistent n u H).
    by destruct (User.remove_calendar n u).
  - pose proof (update_calendar_name_consistent old_name new_name u H).
    by destruct (User.update_calendar_name old_name new_name u).
  - destruct (User.calendars u !! n) as [cal|] eqn:Hcal; [|done].
    pose proof (call_calendar_name c σ cal) as Hname.
    destruct (call_calendar c σ cal) as [[r σ'] cal']. cbn in *.
    unfold names_consistent. cbn.
    apply map_Forall_insert_2; [|done].
    rewrite Hname. by apply (H n cal).
Qed.

Lemma run_user_consistent (cs : list UserCall) (σ : store) (u : User.t) :
  names_consistent u → names_consistent (run_user cs σ u).2.
Proof.
  revert σ u. induction cs as [|c cs IH]; intros σ u H; [done|].
  cbn. pose proof (call_user_consistent c σ u H) as Hc.
  destruct (call_user c σ u) as [[r σ'] u']. by apply IH.
Qed.

(** C5: in every state a user reaches from [User(username)] by calls of
    [create_calendar], [remove_calendar], [update_calendar_name] and of the
    methods of its calendars, each calendar stored under a key has that key
    as its name; a successful rename or creation in such a state gives such
    a state again, and so does any other call. *)
Theorem C5_calendar_key_is_its_name :
  ∀ (cs : list UserCall) (username : string) (σ : store),
    let u := (run_user cs σ (User.init username)).2 in
    names_consistent u
    ∧ (∀ k cal, User.calendars u !! k = Some cal → Calendar.name cal = k)
    ∧ (∀ c σ', names_consistent (call_user c σ' u).2).
Proof.
  intros cs username σ u.
  assert (H : names_consistent u).
  { apply run_user_consistent, names_consistent_init. }
  split; [done|]. split; [apply H|].
  intros c σ'. by apply call_user_consistent.
Qed.

(** * Concrete runs *)

(** The scenario of the specification: create [alice], create [work], add
    [standup], remove it ([True]), remove it again ([False]); then rename
    [work] to [personal] and create [work] again. *)
Example scenario_remove_twice :
  let w0 := mkWorld CalendarsApp.init {[ 0 := Event.init "standup" 540%Z 570%Z EmptyString ]} in
  let '(r1, w1) := call_app (OnDirectory (CreateUser "alice")) w0 in
  let '(r2, w2) := call_app (OnUser "alice" (CreateCalendar "work")) w1 in
  let '(r3, w3) := call_app (OnUser "alice" (OnCalendar "work" (AddEvent 0))) w2 in
  let '(r4, w4) := call_app (OnUser "alice" (OnCalendar "work" (RemoveEvent "standup"))) w3 in
  let '(r5, w5) := call_app (OnUser "alice" (OnCalendar "work" (RemoveEvent "standup"))) w4 in
  let '(r6, w6) := call_app (OnUser "alice" (UpdateCalendarName "work" "personal")) w5 in
  let '(r7, w7) := call_app (OnUser "alice" (CreateCalendar "work")) w6 in
  [r1; r2; r3; r4; r5; r6; r7]
  = [Returned true; Returned true; ReturnedNone; Returned true;
     Returned false; Returned true; Returned true]
  ∧ (dom ∘ User.calendars <$> CalendarsApp.get_user "alice" (app w7))
    = Some ({[ "personal"; "work" ]} : gset string).
Proof. vm_compute. split; reflexivity. Qed.

Lemma C2_returning_False_changes_nothing_witness :
  let c := OnUser "alice" (OnCalendar "work" (RemoveEvent "lunch")) in
  (call_app c sample_world).1 = Returned false
  ∧ (call_app c sample_world).2 = sample_world.
Proof.
  intros c. split.
  - vm_compute. reflexivity.
  - apply (C2_returning_False_changes_nothing c sample_world).
    vm_compute. reflexivity.
Defined.

Lemma C3_remove_event_earliest_duplicate_witness :
  has_title sample_store "standup" 0
  ∧ has_title sample_store "standup" 2
  ∧ ∃ before l after,
      Calendar.events sample_calendar = before ++ l :: after
      ∧ Forall (λ l', ¬ has_title sample_store "standup" l') before
      ∧ has_title sample_store "standup" l
      ∧ length before ≤ 1
      ∧ Calendar.remove_event "standup" sample_store sample_calendar
        = (true, Calendar.set_events (before ++ after) sample_calendar)
      ∧ (before ++ after) !! (2 - 1) = Some 2.
Proof.
  assert (H0 : has_title sample_store "standup" 0).
  { eexists. split; vm_compute; reflexivity. }
  assert (H2 : has_title sample_store "standup" 2).
  { eexists. split; vm_compute; reflexivity. }
  split; [exact H0|]. split; [exact H2|].
  apply (C3_remove_event_earliest_duplicate
           sample_store sample_calendar "standup" 1 2 0 2).
  - lia.
  - reflexivity.
  - exact H0.
  - reflexivity.
  - exact H2.
Defined.

Lemma C7_remove_then_create_is_fresh_witness :
  (User.remove_calendar "work" sample_user).1 = true
  ∧ let u1 := (User.remove_calendar "work" sample_user).2 in
    (User.create_calendar "work" u1).1 = true
    ∧ User.calendars (User.create_calendar "work" u1).2 !! "work"
      = Some (Calendar.init "work")
    ∧ Calendar.events (Calendar.init "work") = [].
Proof.
  split.
  - vm_compute. reflexivity.
  - apply (C7_remove_then_create_is_fresh sample_user "work").
    vm_compute. reflexivity.
Defined.

Lemma C10_update_event_without_fields_witness :
  (∃ l, l ∈ Calendar.events sample_calendar
        ∧ has_title sample_store "standup" l)
  ∧ Calendar.update_event "standup" Event.no_kwargs sample_store
      sample_calendar = (true, sample_store)
  ∧ call_calendar (UpdateEvent "standup" Event.no_kwargs) sample_store
      sample_calendar = (Returned true, sample_store, sample_calendar).
Proof.
  assert (H : ∃ l, l ∈ Calendar.events sample_calendar
                   ∧ has_title sample_store "standup" l).
  { exists 0. split.
    - vm_compute. apply list_elem_of_further, list_elem_of_here.
    - eexists. split; vm_compute; reflexivity. }
  split; [exact H|].
  apply (C10_update_event_without_fields sample_store sample_calendar
           "standup" H).
Defined.

(** * Further properties of the classes *)

(** ** Event *)

(** X1: two [update_event] calls in a row are one call whose fields are the
    second call's where it gives one and the first call's otherwise; in
    particular repeating a call changes nothing more. *)
Theorem X1_update_event_twice_is_one_update :
  ∀ (evt : Event.t) (kw1 kw2 : Event.kwargs),
    Event.update_event kw2 (Event.update_event kw1 evt)
    = Event.update_event (kwargs_then kw1 kw2) evt
    ∧ Event.update_event kw1 (Event.update_event kw1 evt)
      = Event.update_event kw1 evt.
Proof.
  intros evt [t1 s1 e1 d1] [t2 s2 e2 d2]. split.
  - destruct t1, s1, e1, d1, t2, s2, e2, d2; reflexivity.
  - destruct t1, s1, e1, d1; reflexivity.
Qed.

(** ** Calendar *)

Lemma remove_event_cases (σ : store) (cal : Calendar.t) (t : string) :
  (Forall (λ l, ¬ has_title σ t l) (Calendar.events cal)
   ∧ Calendar.remove_event t σ cal = (false, cal))
  ∨ (∃ before l after,
       Calendar.events cal = before ++ l :: after
       ∧ Forall (λ l', ¬ has_title σ t l') before
       ∧ has_title σ t l
       ∧ Calendar.remove_event t σ cal
         = (true, Calendar.set_events (before ++ after) cal)).
Proof.
  destruct (Calendar.first_match σ t (Calendar.events cal) 0)
    as [[p l]|] eqn:Hp.
  - right.
    destruct (first_match_split _ _ _ _ _ _ Hp) as (b & a & Hev & Hb & Hl & _).
    exists b, l, a. repeat split; try done.
    by apply (remove_event_at _ _ _ b a l).
  - left. split; [by apply (first_match_None σ t _ 0)|].
    unfold Calendar.remove_event. by rewrite Hp.
Qed.

Lemma calendar_update_event_cases (σ : store) (cal : Calendar.t) (t : string)
    (kw : Event.kwargs) :
  (Forall (λ l, ¬ has_title σ t l) (Calendar.events cal)
   ∧ Calendar.update_event t kw σ cal = (false, σ))
  ∨ (∃ before l after evt,
       Calendar.events cal = before ++ l :: after
       ∧ Forall (λ l', ¬ has_title σ t l') before
       ∧ σ !! l = Some evt
       ∧ Event.title evt = t
       ∧ Calendar.update_event t kw σ cal
         = (true, <[l := Event.update_event kw evt]> σ)).
Proof.
  destruct (Calendar.first_match σ t (Calendar.events cal) 0)
    as [[p l]|] eqn:Hp.
  - right.
    destruct (first_match_split _ _ _ _ _ _ Hp)
      as (b & a & Hev & Hb & (evt & Hl & Ht) & _).
    exists b, l, a, evt. repeat split; try done.
    by apply (calendar_update_event_at _ _ _ _ b a l evt).
  - left. split; [by apply (first_match_None σ t _ 0)|].
    unfold Calendar.update_event. by rewrite Hp.
Qed.

Lemma filter_no_title_all (σ : store) (t : string) (evs : list loc) :
  Forall (λ l, ¬ has_title σ t l) evs →
  filter (λ l, has_title σ t l) evs = []
  ∧ filter (λ l, ¬ has_title σ t l) evs = evs.
Proof.
  induction 1 as [|l evs Hl _ [IH1 IH2]]; [done|]. split.
  - by rewrite filter_cons_False.
  - rewrite filter_cons_True by done. by rewrite IH2.
Qed.

(** X2: [remove_event] returns [True] exactly when some event of the
    calendar has the title.  When it does, the list loses exactly one entry,
    an event with that title, and the number of entries with the title goes
    down by one; when it returns [False] the calendar is unchanged.  The name
    of the calendar never changes. *)
Theorem X2_remove_event_takes_exactly_one :
  ∀ (σ : store) (cal : Calendar.t) (event_title : string),
    let r := Calendar.remove_event event_title σ cal in
    (r.1 = true
     ↔ ∃ l, l ∈ Calendar.events cal ∧ has_title σ event_title l)
    ∧ (if r.1 then
         (∃ l, has_title σ event_title l
               ∧ Calendar.events cal ≡ₚ l :: Calendar.events r.2)
         ∧ length (Calendar.events r.2) + 1 = length (Calendar.events cal)
         ∧ length (filter (λ l, has_title σ event_title l)
                     (Calendar.events r.2)) + 1
           = length (filter (λ l, has_title σ event_title l)
                       (Calendar.events cal))
       else r.2 = cal)
    ∧ Calendar.name r.2 = Calendar.name cal.
Proof.
  intros σ cal t r. subst r.
  destruct (remove_event_cases σ cal t)
    as [[Hall ->]|(b & l & a & Hev & Hb & Hl & ->)]; cbn.
  - split; [|done]. split; [done|].
    intros (l & Hin & Hl). rewrite Forall_forall in Hall.
    by destruct (Hall l Hin).
  - split; [|split; [|done]].
    + split; [|done]. intros _. exists l. split; [|done].
      rewrite Hev. set_solver.
    + split; [|split].
      * exists l. split; [done|]. rewrite Hev.
        symmetry. apply Permutation_middle.
      * rewrite Hev, !length_app. cbn. lia.
      * rewrite Hev, !filter_app, filter_cons_True by done.
        rewrite !length_app. cbn. lia.
Qed.

(** X3: [remove_event] never takes out, and never reorders, an event with
    another title: the events that do not have the title are the same list
    before and after, and what remains is the old list with entries left
    out. *)
Theorem X3_remove_event_keeps_other_titles :
  ∀ (σ : store) (cal : Calendar.t) (event_title : string),
    let cal' := (Calendar.remove_event event_title σ cal).2 in
    filter (λ l, ¬ has_title σ event_title l) (Calendar.events cal')
    = filter (λ l, ¬ has_title σ event_title l) (Calendar.events cal)
    ∧ Calendar.events cal' `sublist_of` Calendar.events cal.
Proof.
  intros σ cal t cal'. subst cal'.
  destruct (remove_event_cases σ cal t)
    as [[Hall ->]|(b & l & a & Hev & Hb & Hl & ->)]; cbn; [done|].
  rewrite Hev. split.
  - rewrite !filter_app. f_equal. rewrite filter_cons_False; [done|].
    intros Hn. by apply Hn.
  - apply sublist_app; [done|]. by apply sublist_cons.
Qed.

(** X4: adding an event to a calendar that has no event of that title and
    removing it by its title gives the calendar back, with [True]. *)
Theorem X4_add_then_remove_event :
  ∀ (σ : store) (cal : Calendar.t) (event : loc) (event_title : string),
    Forall (λ l, ¬ has_title σ event_title l) (Calendar.events cal) →
    has_title σ event_title event →
    Calendar.remove_event event_title σ (Calendar.add_event event cal)
    = (true, cal).
Proof.
  intros σ cal event t Hno Hev.
  rewrite (remove_event_at σ (Calendar.add_event event cal) t
             (Calendar.events cal) [] event); try done.
  rewrite app_nil_r. by destruct cal.
Qed.

Lemma first_match_app_l (σ : store) (t : string) (evs evs' : list loc)
    (i : nat) :
  is_Some (Calendar.first_match σ t evs i) →
  Calendar.first_match σ t (evs ++ evs') i = Calendar.first_match σ t evs i.
Proof.
  revert i. induction evs as [|l evs IH]; intros i; cbn.
  - by intros [? ?].
  - destruct (Calendar.matches_at σ t l); [done|]. apply IH.
Qed.

(** X5: an added event never takes the place of an older event with the same
    title: when the calendar already has an event with the title,
    [update_event] does the same with and without the added event, and
    [remove_event] removes the same older event and keeps the added one at
    the end. *)
Theorem X5_add_event_does_not_shadow :
  ∀ (σ : store) (cal : Calendar.t) (event : loc) (event_title : string)
    (kw : Event.kwargs),
    (∃ l, l ∈ Calendar.events cal ∧ has_title σ event_title l) →
    Calendar.update_event event_title kw σ (Calendar.add_event event cal)
    = Calendar.update_event event_title kw σ cal
    ∧ Calendar.remove_event event_title σ (Calendar.add_event event cal)
      = (true,
         Calendar.add_event event
           (Calendar.remove_event event_title σ cal).2).
Proof.
  intros σ cal event t kw Hex.
  apply first_match_is_Some in Hex as Hsome.
  split.
  - unfold Calendar.update_event. cbn.
    by rewrite first_match_app_l.
  - destruct (remove_event_cases σ cal t)
      as [[Hall _]|(b & l & a & Hev & Hb & Hl & ->)].
    + destruct Hex as (l & Hin & Hl). rewrite Forall_forall in Hall.
      by destruct (Hall l Hin).
    + rewrite (remove_event_at σ (Calendar.add_event event cal) t
                 b (a ++ [event]) l); try done.
      * cbn. unfold Calendar.add_event. cbn. by rewrite app_assoc.
      * cbn. rewrite Hev. by rewrite <- app_assoc.
Qed.

Lemma update_event_title (kw : Event.kwargs) (evt : Event.t) :
  Event.title (Event.update_event kw evt)
  = default (Event.title evt) (Event.kw_title kw).
Proof. destruct kw as [[?|] [?|] [?|] [?|]]; reflexivity. Qed.

Lemma update_event_idempotent (kw : Event.kwargs) (evt : Event.t) :
  Event.update_event kw (Event.update_event kw evt) = Event.update_event kw evt.
Proof. destruct kw as [[?|] [?|] [?|] [?|]]; reflexivity. Qed.

Lemma has_title_insert (σ : store) (t : string) (l l' : loc) (evt : Event.t) :
  has_title (<[l := evt]> σ) t l'
  ↔ (l' = l ∧ Event.title evt = t) ∨ (l' ≠ l ∧ has_title σ t l').
Proof.
  unfold has_title. destruct (decide (l' = l)) as [->|Hne].
  - rewrite lookup_insert_eq. split.
    + intros (e & [= <-] & Ht). by left.
    + intros [[_ Ht]|[? _]]; [by exists evt | done].
  - rewrite lookup_insert_ne by done. split.
    + intros H. by right.
    + by intros [[? _]|[_ H]].
Qed.

Lemma calendar_update_event_true_iff (σ : store) (cal : Calendar.t)
    (t : string) (kw : Event.kwargs) :
  (Calendar.update_event t kw σ cal).1 = true
  ↔ ∃ l, l ∈ Calendar.events cal ∧ has_title σ t l.
Proof.
  rewrite <- first_match_is_Some. unfold Calendar.update_event.
  destruct (Calendar.first_match σ t (Calendar.events cal) 0) as [[p l]|].
  - split; [by eexists | done].
  - split; [done | by intros [? ?]].
Qed.

(** X6: an [update_event] that leaves the title as it is (no title given, or
    the same title given) can be repeated without any further effect: the
    second call returns what the first returned and the store stays as the
    first call left it. *)
Theorem X6_update_event_repeated :
  ∀ (σ : store) (cal : Calendar.t) (event_title : string)
    (kw : Event.kwargs),
    default event_title (Event.kw_title kw) = event_title →
    let first := Calendar.update_event event_title kw σ cal in
    Calendar.update_event event_title kw first.2 cal = first.
Proof.
  intros σ cal t kw Hkeep first. subst first.
  destruct (calendar_update_event_cases σ cal t kw)
    as [[Hall ->]|(b & l & a & evt & Hev & Hb & Hl & Ht & ->)]; cbn.
  - destruct (calendar_update_event_cases σ cal t kw) as [[_ ->]|H]; [done|].
    destruct H as (b & l & a & evt & Hev & _ & Hl & Ht & _).
    rewrite Forall_forall in Hall. destruct (Hall l).
    + rewrite Hev. set_solver.
    + by exists evt.
  - rewrite (calendar_update_event_at _ cal t kw b a l
               (Event.update_event kw evt)).
    + rewrite insert_insert_eq.
      by rewrite update_event_idempotent.
    + done.
    + rewrite Forall_forall in Hb |- *. intros l' Hin.
      rewrite has_title_insert. intros [[-> _]|[_ H]].
      * destruct (Hb l Hin). by exists evt.
      * by destruct (Hb l' Hin).
    + apply lookup_insert_eq.
    + by rewrite update_event_title, Ht.
Qed.

(** X7: an [update_event] that gives the first event with the title another
    title makes the next lookup by the old title pass over it: afterwards
    that event has the new title and not the old one, every other event has
    the titles it had, and a second call with the old title returns [True]
    exactly when another event object, further down the list, has the old
    title. *)
Theorem X7_update_event_new_title_moves_on :
  ∀ (σ : store) (cal : Calendar.t) (event_title new_title : string)
    (kw kw' : Event.kwargs) (before after : list loc) (l : loc),
    Calendar.events cal = before ++ l :: after →
    Forall (λ l', ¬ has_title σ event_title l') before →
    has_title σ event_title l →
    Event.kw_title kw = Some new_title →
    new_title ≠ event_title →
    let σ1 := (Calendar.update_event event_title kw σ cal).2 in
    has_title σ1 new_title l
    ∧ ¬ has_title σ1 event_title l
    ∧ (∀ l' t, l' ≠ l → has_title σ1 t l' ↔ has_title σ t l')
    ∧ ((Calendar.update_event event_title kw' σ1 cal).1 = true
       ↔ ∃ l', l' ∈ after ∧ l' ≠ l ∧ has_title σ event_title l').
Proof.
  intros σ cal t t' kw kw' b a l Hev Hb (evt & Hl & Ht) Hkw Hne σ1.
  subst σ1. rewrite (calendar_update_event_at _ cal t kw b a l evt) by done.
  cbn.
  assert (Hnew : Event.title (Event.update_event kw evt) = t').
  { by rewrite update_event_title, Hkw. }
  split; [|split; [|split]].
  - apply has_title_insert. by left.
  - rewrite has_title_insert. intros [[_ H]|[H _]]; congruence.
  - intros l' t0 Hl'. rewrite has_title_insert.
    split; [intros [[? _]|[_ ?]]; done | intros H; by right].
  - rewrite calendar_update_event_true_iff, Hev. split.
    + intros (l' & Hin & Hl'). apply has_title_insert in Hl'.
      destruct Hl' as [[_ H]|[Hl'ne Hl']]; [congruence|].
      exists l'. split; [|done].
      apply elem_of_app in Hin as [Hin|Hin].
      * rewrite Forall_forall in Hb. by destruct (Hb l' Hin).
      * apply elem_of_cons in Hin as [->|Hin]; done.
    + intros (l' & Hin & Hl'ne & Hl'). exists l'. split; [set_solver|].
      apply has_title_insert. by right.
Qed.

(** ** User *)

Lemma create_calendar_cases (n : string) (u : User.t) :
  (is_Some (User.calendars u !! n) ∧ User.create_calendar n u = (false, u))
  ∨ (User.calendars u !! n = None
     ∧ User.create_calendar n u
       = (true,
          User.set_calendars (<[n := Calendar.init n]> (User.calendars u)) u)).
Proof.
  unfold User.create_calendar.
  destruct (dict_contains n (User.calendars u)) eqn:E.
  - left. split; [by apply dict_contains_true | done].
  - right. split; [by apply dict_contains_false | done].
Qed.

Lemma update_calendar_name_cases (old_name new_name : string) (u : User.t) :
  ((User.calendars u !! old_name = None ∨ is_Some (User.calendars u !! new_name))
   ∧ User.update_calendar_name old_name new_name u = (false, u))
  ∨ (∃ cal,
       User.calendars u !! old_name = Some cal
       ∧ User.calendars u !! new_name = None
       ∧ User.update_calendar_name old_name new_name u
         = (true,
            User.set_calendars
              (<[new_name := Calendar.set_name new_name cal]>
                 (delete old_name (User.calendars u))) u)).
Proof.
  unfold User.update_calendar_name, dict_pop.
  destruct (dict_contains old_name (User.calendars u)) eqn:Eold; cbn.
  - destruct (dict_contains new_name (User.calendars u)) eqn:Enew; cbn.
    + left. split; [|done]. right. by apply dict_contains_true.
    + right. apply dict_contains_true in Eold as [cal Hcal].
      apply dict_contains_false in Enew.
      exists cal. by rewrite Hcal.
  - left. split; [|done]. left. by apply dict_contains_false.
Qed.

(** X8: [create_calendar] returns [True] exactly when the name is free.
    Then the name holds a new calendar without events and the user has one
    calendar more; otherwise the user is unchanged, so an existing calendar
    keeps its events.  No other calendar changes, and the username stays. *)
Theorem X8_create_calendar_effect :
  ∀ (u : User.t) (calendar_name : string),
    let r := User.create_calendar calendar_name u in
    (r.1 = true ↔ User.calendars u !! calendar_name = None)
    ∧ (if r.1 then
         User.calendars r.2 !! calendar_name = Some (Calendar.init calendar_name)
         ∧ size (User.calendars r.2) = S (size (User.calendars u))
       else r.2 = u)
    ∧ (∀ k, k ≠ calendar_name → User.calendars r.2 !! k = User.calendars u !! k)
    ∧ User.username r.2 = User.username u.
Proof.
  intros u n r. subst r.
  destruct (create_calendar_cases n u) as [[[cal Hin] ->]|[Hnone ->]]; cbn.
  - split; [|done]. rewrite Hin. done.
  - split; [done|]. split; [|split; [|done]].
    + split; [apply lookup_insert_eq | by apply map_size_insert_None].
    + intros k Hk. by apply lookup_insert_ne.
Qed.

(** X9: [remove_calendar] returns [True] exactly when the name was there.
    Afterwards the name is free, no other calendar has changed, and the user
    has one calendar less exactly when [True] was returned. *)
Theorem X9_remove_calendar_effect :
  ∀ (u : User.t) (calendar_name : string),
    let r := User.remove_calendar calendar_name u in
    (r.1 = true ↔ is_Some (User.calendars u !! calendar_name))
    ∧ User.calendars r.2 !! calendar_name = None
    ∧ (∀ k, k ≠ calendar_name → User.calendars r.2 !! k = User.calendars u !! k)
    ∧ size (User.calendars r.2) + (if r.1 then 1 else 0)
      = size (User.calendars u)
    ∧ User.username r.2 = User.username u.
Proof.
  intros u n r. subst r. unfold User.remove_calendar, dict_pop. cbn.
  split; [|split; [|split; [|split]]].
  - destruct (User.calendars u !! n); cbn; (split; [done|]); try done.
    all: try (by intros [? ?]).
  - apply lookup_delete_eq.
  - intros k Hk. by apply lookup_delete_ne.
  - rewrite map_size_delete.
    destruct (User.calendars u !! n) eqn:E; cbn; [|lia].
    assert (size (User.calendars u) ≠ 0); [|lia].
    intros H0. apply map_size_empty_inv in H0.
    rewrite H0, lookup_empty in E. done.
  - done.
Qed.

(** X10: [update_calendar_name] returns [True] exactly when the old name
    is there and the new name is free.  Then the calendar is found under the
    new name with the new name as its own and with the events and the
    factory it had; the old name is free; no other calendar has changed and
    the number of calendars is the same.  When it returns [False] the user
    is unchanged. *)
Theorem X10_update_calendar_name_effect :
  ∀ (u : User.t) (old_name new_name : string),
    let r := User.update_calendar_name old_name new_name u in
    (r.1 = true
     ↔ is_Some (User.calendars u !! old_name)
       ∧ User.calendars u !! new_name = None)
    ∧ (if r.1 then
         User.calendars r.2 !! new_name
         = Calendar.set_name new_name <$> User.calendars u !! old_name
         ∧ User.calendars r.2 !! old_name = None
         ∧ size (User.calendars r.2) = size (User.calendars u)
       else r.2 = u)
    ∧ (∀ k, k ≠ old_name → k ≠ new_name →
         User.calendars r.2 !! k = User.calendars u !! k)
    ∧ User.username r.2 = User.username u.
Proof.
  intros u o n r. subst r.
  destruct (update_calendar_name_cases o n u)
    as [[Hfail ->]|(cal & Ho & Hn & ->)]; cbn.
  - split; [|done]. split; [done|].
    intros [[cal Ho] Hn]. destruct Hfail as [H|[c H]]; congruence.
  - assert (Hne : n ≠ o) by congruence.
    split; [|split; [|split; [|done]]].
    + split; [|done]. intros _. split; [by eexists | done].
    + split; [|split].
      * by rewrite lookup_insert_eq, Ho.
      * rewrite lookup_insert_ne by done. apply lookup_delete_eq.
      * rewrite map_size_insert_None.
        -- rewrite map_size_delete_Some by (by eexists).
           assert (size (User.calendars u) ≠ 0); [|lia].
           intros H0. apply map_size_empty_inv in H0.
           rewrite H0, lookup_empty in Ho. done.
        -- by rewrite lookup_delete_ne.
    + intros k Hko Hkn.
      rewrite lookup_insert_ne by done. by apply lookup_delete_ne.
Qed.


(** X12: a successful rename frees the old name: [create_calendar] with the
    old name then returns [True]; the new name holds the renamed calendar
    with its events, and the old name holds a new calendar without
    events. *)
Theorem X12_rename_frees_the_old_name :
  ∀ (u : User.t) (old_name new_name : string) (cal : Calendar.t),
    User.calendars u !! old_name = Some cal →
    (User.update_calendar_name old_name new_name u).1 = true →
    let u1 := (User.update_calendar_name old_name new_name u).2 in
    let r := User.create_calendar old_name u1 in
    r.1 = true
    ∧ User.calendars r.2 !! new_name = Some (Calendar.set_name new_name cal)
    ∧ Calendar.events (Calendar.set_name new_name cal) = Calendar.events cal
    ∧ User.calendars r.2 !! old_name = Some (Calendar.init old_name).
Proof.
  intros u o n cal Hcal Hr u1 r. subst r u1.
  destruct (update_calendar_name_cases o n u)
    as [[_ E]|(cal' & Ho & Hn & E)]; rewrite E in Hr |- *; [done|].
  clear E Hr. cbn. assert (Hne : n ≠ o) by congruence.
  assert (cal' = cal) as -> by congruence.
  set (u1 := User.set_calendars _ u).
  destruct (create_calendar_cases o u1) as [[[c Hin] _]|[_ ->]].
  - subst u1. cbn in Hin.
    rewrite lookup_insert_ne, lookup_delete_eq in Hin by done. done.
  - subst u1. cbn. split; [done|]. split; [|split; [done|]].
    + rewrite lookup_insert_ne by done. apply lookup_insert_eq.
    + apply lookup_insert_eq.
Qed.

(** X13: creating a calendar under a free name and removing it again gives
    the user back, both calls returning [True]. *)
Theorem X13_create_then_remove_calendar :
  ∀ (u : User.t) (calendar_name : string),
    User.calendars u !! calendar_name = None →
    (User.create_calendar calendar_name u).1 = true
    ∧ User.remove_calendar calendar_name
        (User.create_calendar calendar_name u).2
      = (true, u).
Proof.
  intros u n Hnone.
  destruct (create_calendar_cases n u) as [[[c Hin] _]|[_ ->]]; [congruence|].
  split; [done|]. unfold User.remove_calendar, dict_pop. cbn.
  rewrite lookup_insert_eq, delete_insert_id by done. cbn. by destruct u.
Qed.

(** ** CalendarsApp *)

Lemma create_user_cases (n : string) (a : CalendarsApp.t) :
  (is_Some (CalendarsApp.users a !! n)
   ∧ CalendarsApp.create_user n a = (false, a))
  ∨ (CalendarsApp.users a !! n = None
     ∧ CalendarsApp.create_user n a
       = (true, CalendarsApp.mk (<[n := User.init n]> (CalendarsApp.users a)))).
Proof.
  unfold CalendarsApp.create_user.
  destruct (dict_contains n (CalendarsApp.users a)) eqn:E.
  - left. split; [by apply dict_contains_true | done].
  - right. split; [by apply dict_contains_false | done].
Qed.

(** X14: [create_user] returns [True] exactly when the name is free.  Then
    [get_user] gives a new user of that name without calendars and the app
    has one user more; otherwise the app is unchanged, so the existing user
    keeps its calendars.  No other user changes. *)
Theorem X14_create_user_effect :
  ∀ (a : CalendarsApp.t) (username : string),
    let r := CalendarsApp.create_user username a in
    (r.1 = true ↔ CalendarsApp.get_user username a = None)
    ∧ (if r.1 then
         CalendarsApp.get_user username r.2 = Some (User.init username)
         ∧ User.calendars (User.init username) = ∅
         ∧ size (CalendarsApp.users r.2) = S (size (CalendarsApp.users a))
       else r.2 = a)
    ∧ (∀ k, k ≠ username →
         CalendarsApp.get_user k r.2 = CalendarsApp.get_user k a).
Proof.
  intros a n r. subst r. unfold CalendarsApp.get_user.
  destruct (create_user_cases n a) as [[[u Hin] ->]|[Hnone ->]]; cbn.
  - split; [|done]. by rewrite Hin.
  - split; [done|]. split.
    + split; [apply lookup_insert_eq|]. split; [done|].
      by apply map_size_insert_None.
    + intros k Hk. by apply lookup_insert_ne.
Qed.

(** X15: [delete_user] returns [True] exactly when the user was there.
    Afterwards [get_user] finds no user of that name, no other user has
    changed, and the app has one user less exactly when [True] was
    returned. *)
Theorem X15_delete_user_effect :
  ∀ (a : CalendarsApp.t) (username : string),
    let r := CalendarsApp.delete_user username a in
    (r.1 = true ↔ is_Some (CalendarsApp.get_user username a))
    ∧ CalendarsApp.get_user username r.2 = None
    ∧ (∀ k, k ≠ username →
         CalendarsApp.get_user k r.2 = CalendarsApp.get_user k a)
    ∧ size (CalendarsApp.users r.2) + (if r.1 then 1 else 0)
      = size (CalendarsApp.users a).
Proof.
  intros a n r. subst r.
  unfold CalendarsApp.delete_user, CalendarsApp.get_user, dict_pop. cbn.
  split; [|split; [|split]].
  - destruct (CalendarsApp.users a !! n); cbn; (split; [done|]); try done.
    all: try (by intros [? ?]).
  - apply lookup_delete_eq.
  - intros k Hk. by apply lookup_delete_ne.
  - rewrite map_size_delete.
    destruct (CalendarsApp.users a !! n) eqn:E; cbn; [|lia].
    assert (size (CalendarsApp.users a) ≠ 0); [|lia].
    intros H0. apply map_size_empty_inv in H0.
    rewrite H0, lookup_empty in E. done.
Qed.

(** X16: deleting a user loses its calendars for good: whatever the user
    had, [create_user] with the same name right after [delete_user] returns
    [True] and [get_user] then gives a user without any calendar. *)
Theorem X16_delete_then_create_user_is_fresh :
  ∀ (a : CalendarsApp.t) (username : string),
    let a1 := (CalendarsApp.delete_user username a).2 in
    let r := CalendarsApp.create_user username a1 in
    r.1 = true
    ∧ CalendarsApp.get_user username r.2 = Some (User.init username)
    ∧ (User.calendars <$> CalendarsApp.get_user username r.2) = Some ∅.
Proof.
  intros a n a1 r. subst r.
  assert (Hnone : CalendarsApp.users a1 !! n = None).
  { subst a1. unfold CalendarsApp.delete_user, dict_pop. cbn.
    apply lookup_delete_eq. }
  destruct (create_user_cases n a1) as [[[u Hin] _]|[_ ->]]; [congruence|].
  unfold CalendarsApp.get_user. cbn. rewrite lookup_insert_eq. done.
Qed.

Lemma call_user_username (c : UserCall) (σ : store) (u : User.t) :
  User.username (call_user c σ u).2 = User.username u.
Proof.
  destruct c as [n|n|old_name new_name|n c]; unfold call_user.
  - unfold User.create_calendar.
    by destruct (dict_contains n (User.calendars u)).
  - done.
  - destruct (update_calendar_name_cases old_name new_name u)
      as [[_ ->]|(cal & _ & _ & ->)]; done.
  - destruct (User.calendars u !! n); [|done].
    by destruct (call_calendar c σ _) as [[r σ'] cal'].
Qed.

Lemma call_app_users_named (c : AppCall) (w : World) :
  users_named (app w) → users_named (app (call_app c w).2).
Proof.
  intros H. destruct c as [[n|n]|n c]; unfold call_app, call_directory.
  - destruct (create_user_cases n (app w)) as [[_ ->]|[_ ->]]; [done|].
    cbn. apply map_Forall_insert_2; [|done].
    split; [done | apply names_consistent_init].
  - unfold CalendarsApp.delete_user, dict_pop. cbn.
    by apply map_Forall_delete.
  - unfold CalendarsApp.get_user.
    destruct (CalendarsApp.users (app w) !! n) as [u|] eqn:Hu; [|done].
    destruct (H n u Hu) as [Hname Hcons].
    pose proof (call_user_username c (heap w) u) as Hn'.
    pose proof (call_user_consistent c (heap w) u Hcons) as Hc'.
    destruct (call_user c (heap w) u) as [[r σ'] u']. cbn in *.
    apply map_Forall_insert_2; [|done]. split; [congruence | done].
Qed.

(** X17: in every state reached from a new app by method calls (on the
    app, on its users and on their calendars), each user is stored under its
    own username and each of its calendars under the calendar's own name. *)
Theorem X17_users_and_calendars_stored_under_their_names :
  ∀ (cs : list AppCall) (σ : store),
    let w := run_app cs (mkWorld CalendarsApp.init σ) in
    users_named (app w)
    ∧ ∀ k u, CalendarsApp.get_user k (app w) = Some u →
        User.username u = k
        ∧ ∀ k' cal, User.calendars u !! k' = Some cal → Calendar.name cal = k'.
Proof.
  intros cs σ w.
  assert (H : users_named (app w)).
  { subst w.
    assert (H0 : users_named (app (mkWorld CalendarsApp.init σ))).
    { apply map_Forall_empty. }
    revert H0. generalize (mkWorld CalendarsApp.init σ).
    induction cs as [|c cs IH]; intros w0 H0; [done|].
    cbn. apply IH. by apply call_app_users_named. }
  split; [done|]. intros k u Hu. destruct (H k u Hu) as [Hn Hc].
  split; [done|]. apply Hc.
Qed.

Lemma calendar_update_event_dom (σ : store) (cal : Calendar.t) (t : string)
    (kw : Event.kwargs) :
  dom (Calendar.update_event t kw σ cal).2 = dom σ.
Proof.
  destruct (calendar_update_event_cases σ cal t kw)
    as [[_ ->]|(b & l & a & evt & _ & _ & Hl & _ & ->)]; [done|].
  cbn. apply dom_insert_lookup_L. by eexists.
Qed.


(** * The menus *)

Lemma calendar_unshared_mono (σ σ' : store) (cal : Calendar.t) :
  dom σ ⊆ dom σ' → calendar_unshared σ cal → calendar_unshared σ' cal.
Proof.
  intros Hsub [Hnd Hin]. split; [done|].
  eapply Forall_impl; [exact Hin|]. intros l Hl. cbn in Hl.
  apply elem_of_dom. apply Hsub. by apply elem_of_dom.
Qed.

Lemma calendar_unshared_init (σ : store) (n : string) :
  calendar_unshared σ (Calendar.init n).
Proof. split; [apply NoDup_nil_2 | apply Forall_nil_2]. Qed.

Lemma later_matches_unchanged_NoDup (σ : store) (cal : Calendar.t)
    (t : string) (kw : Event.kwargs) :
  NoDup (Calendar.events cal) → later_matches_unchanged σ cal t kw.
Proof.
  intros Hnd i j li lj Hij Hi Hli Hj Hlj.
  destruct (calendar_update_event_cases σ cal t kw)
    as [[_ ->]|(b & l & a & evt & Hev & Hb & _ & _ & ->)]; [done|].
  cbn. apply lookup_insert_ne. intros ->.
  assert (Hle : length b ≤ i).
  { destruct (decide (length b ≤ i)) as [|Hlt]; [done|].
    rewrite Hev, lookup_app_l in Hi by lia.
    rewrite Forall_forall in Hb.
    destruct (Hb li); [by eapply list_elem_of_lookup_2 | done]. }
  assert (Hpl : Calendar.events cal !! length b = Some lj).
  { rewrite Hev. by apply list_lookup_middle. }
  assert (length b = j) by (by eapply NoDup_lookup).
  lia.
Qed.

Section MenuProofs.

Variable strptime : string → option datetime.

(** The user a handler leaves behind is the user itself or the result of a
    method call on it. *)
Lemma user_menu_step_user (choice : UserMenuChoice) (σ : store) (u : User.t) :
  (user_menu_step strptime choice σ u).2 = u
  ∨ ∃ c σ0, (user_menu_step strptime choice σ u).2 = (call_user c σ0 u).2.
Proof.
  destruct choice as [n|n|n t s e d|n t|n t nt s e d|o n];
    unfold user_menu_step.
  - right. exists (CreateCalendar n), σ. cbn.
    by destruct (User.create_calendar n u).
  - right. exists (RemoveCalendar n), σ. cbn.
    by destruct (User.remove_calendar n u).
  - destruct (User.calendars u !! n) as [cal|] eqn:Hcal; [|by left].
    destruct (strptime s) as [sd|]; [|by left].
    destruct (strptime e) as [ed|]; [|by left].
    right. exists (OnCalendar n (AddEvent (fresh (dom σ)))), σ. cbn.
    by rewrite Hcal.
  - destruct (User.calendars u !! n) as [cal|] eqn:Hcal; [|by left].
    right. exists (OnCalendar n (RemoveEvent t)), σ. cbn. rewrite Hcal.
    by destruct (Calendar.remove_event t σ cal).
  - destruct (User.calendars u !! n) as [cal|] eqn:Hcal; [|by left].
    left. by destruct (Calendar.update_event t _ σ cal).
  - right. exists (UpdateCalendarName o n), σ. cbn.
    by destruct (User.update_calendar_name o n u).
Qed.

Lemma user_menu_step_named (choice : UserMenuChoice) (σ : store) (u : User.t) :
  names_consistent u →
  User.username (user_menu_step strptime choice σ u).2 = User.username u
  ∧ names_consistent (user_menu_step strptime choice σ u).2.
Proof.
  intros H.
  destruct (user_menu_step_user choice σ u) as [->|(c & σ0 & ->)]; [done|].
  split; [apply call_user_username | by apply call_user_consistent].
Qed.

Lemma user_menu_step_unshared (choice : UserMenuChoice) (σ : store)
    (u : User.t) :
  map_Forall (λ _ cal, calendar_unshared σ cal) (User.calendars u) →
  let r := user_menu_step strptime choice σ u in
  map_Forall (λ _ cal, calendar_unshared r.1.2 cal) (User.calendars r.2)
  ∧ dom σ ⊆ dom r.1.2.
Proof.
  intros H r. subst r.
  destruct choice as [n|n|n t s e d|n t|n t nt s e d|o n];
    unfold user_menu_step.
  - destruct (create_calendar_cases n u) as [[_ ->]|[_ ->]]; [done|].
    cbn. split; [|done].
    apply map_Forall_insert_2; [apply calendar_unshared_init | done].
  - unfold User.remove_calendar, dict_pop. cbn.
    split; [by apply map_Forall_delete | done].
  - destruct (User.calendars u !! n) as [cal|] eqn:Hcal; [|done].
    destruct (strptime s) as [sd|]; [|done].
    destruct (strptime e) as [ed|]; [|done].
    cbn. pose proof (is_fresh (dom σ)) as Hfresh.
    assert (Hsub : dom σ ⊆ dom (<[fresh (dom σ) := create_event
              (Calendar.event_factory cal) t sd ed d]> σ)).
    { apply dom_insert_subseteq. }
    split; [|done].
    apply map_Forall_insert_2.
    + destruct (H n cal Hcal) as [Hnd Hin]. split; cbn.
      * apply NoDup_app. split; [done|]. split; [|apply NoDup_singleton].
        intros x Hx Hx'. apply list_elem_of_singleton in Hx' as ->.
        rewrite Forall_forall in Hin. apply Hfresh.
        apply elem_of_dom. by apply Hin.
      * apply Forall_app. split.
        -- eapply Forall_impl; [exact Hin|]. intros l Hl. cbn in Hl.
           apply elem_of_dom, Hsub. by apply elem_of_dom.
        -- apply Forall_singleton. rewrite lookup_insert_eq. by eexists.
    + eapply map_Forall_impl; [exact H|]. intros k c Hc.
      by eapply calendar_unshared_mono.
  - destruct (User.calendars u !! n) as [cal|] eqn:Hcal; [|done].
    destruct (remove_event_cases σ cal t)
      as [[_ ->]|(b & l & a & Hev & _ & _ & ->)]; cbn.
    + split; [|done]. by apply map_Forall_insert_2; [apply (H n)|].
    + split; [|done]. apply map_Forall_insert_2; [|done].
      destruct (H n cal Hcal) as [Hnd Hin]. rewrite Hev in Hnd, Hin.
      split; cbn.
      * eapply sublist_NoDup; [exact Hnd|].
        apply sublist_app; [done|]. by apply sublist_cons.
      * apply Forall_app in Hin as [Hb Ha]. apply Forall_cons in Ha as [_ Ha].
        by apply Forall_app.
  - destruct (User.calendars u !! n) as [cal|] eqn:Hcal; [|done].
    pose proof (calendar_update_event_dom σ cal t
                  (update_fields_of_input strptime nt s e d)) as Hdom.
    destruct (Calendar.update_event t _ σ cal) as [r σ']. cbn in *.
    split; [|by rewrite Hdom].
    eapply map_Forall_impl; [exact H|]. intros k c Hc.
    eapply calendar_unshared_mono; [|exact Hc]. by rewrite Hdom.
  - destruct (update_calendar_name_cases o n u)
      as [[_ ->]|(cal & Ho & _ & ->)]; [done|].
    cbn. split; [|done].
    apply map_Forall_insert_2; [exact (H o cal Ho) | by apply map_Forall_delete].
Qed.

Lemma user_menu_step_wf (choice : UserMenuChoice) (σ : store) (k : string)
    (u : User.t) :
  user_wf σ k u →
  let r := user_menu_step strptime choice σ u in
  user_wf r.1.2 k r.2 ∧ dom σ ⊆ dom r.1.2.
Proof.
  intros (Hn & Hc & Hu) r. subst r.
  destruct (user_menu_step_named choice σ u Hc) as [Hn' Hc'].
  destruct (user_menu_step_unshared choice σ u Hu) as [Hu' Hsub].
  split; [|done]. split; [congruence|]. by split.
Qed.

Lemma run_user_menu_wf (session : list UserMenuChoice) (σ : store)
    (k : string) (u : User.t) :
  user_wf σ k u →
  let r := run_user_menu strptime session σ u in
  user_wf r.1.2 k r.2 ∧ dom σ ⊆ dom r.1.2.
Proof.
  revert σ u. induction session as [|choice session IH]; intros σ u H; [done|].
  cbn. destruct (user_menu_step_wf choice σ k u H) as [H1 Hsub1].
  destruct (user_menu_step strptime choice σ u) as [[out σ1] u1].
  cbn in *. destruct (IH σ1 u1 H1) as [H2 Hsub2].
  destruct (run_user_menu strptime session σ1 u1) as [[out' σ2] u2].
  cbn in *. split; [done|]. by etrans.
Qed.

Lemma user_wf_mono (σ σ' : store) (k : string) (u : User.t) :
  dom σ ⊆ dom σ' → user_wf σ k u → user_wf σ' k u.
Proof.
  intros Hsub (Hn & Hc & Hu). split; [done|]. split; [done|].
  eapply map_Forall_impl; [exact Hu|]. intros k' c Hc'.
  by eapply calendar_unshared_mono.
Qed.

Lemma main_step_wf (choice : MainChoice) (w : World) :
  world_wf w → world_wf (main_step strptime choice w).2.
Proof.
  intros H. destruct choice as [n|n session|n]; unfold main_step.
  - destruct (create_user_cases n (app w)) as [[_ ->]|[_ ->]]; [done|].
    unfold world_wf. cbn. apply map_Forall_insert_2; [|done].
    split; [done|]. split; [apply names_consistent_init|].
    apply map_Forall_empty.
  - unfold CalendarsApp.get_user.
    destruct (CalendarsApp.users (app w) !! n) as [u|] eqn:Hu; [|done].
    destruct (run_user_menu_wf session (heap w) n u (H n u Hu)) as [H1 Hsub].
    destruct (run_user_menu strptime session (heap w) u) as [[out σ'] u'].
    unfold world_wf. cbn in *. apply map_Forall_insert_2; [done|].
    eapply map_Forall_impl; [exact H|]. intros k v Hv.
    by eapply user_wf_mono.
  - unfold CalendarsApp.delete_user, dict_pop, world_wf. cbn.
    by apply map_Forall_delete.
Qed.

Lemma run_main_wf (choices : list MainChoice) (w : World) :
  world_wf w → world_wf (run_main strptime choices w).2.
Proof.
  revert w. induction choices as [|choice choices IH]; intros w H; [done|].
  cbn. pose proof (main_step_wf choice w H) as H1.
  destruct (main_step strptime choice w) as [out w1]. cbn in *.
  specialize (IH w1 H1).
  by destruct (run_main strptime choices w1) as [out' w2].
Qed.

End MenuProofs.

(** X19: what choice 6 of the user menu does to an event, field by field:
    an empty input keeps the field, a time that does not parse keeps the
    field as well, and any other input replaces it.  So the menu can never
    blank a title or a description. *)
Theorem X19_menu_update_keeps_skipped_fields :
  ∀ (strptime : string → option datetime) (evt : Event.t)
    (new_title start_str end_str desc_str : string),
    let evt' :=
      Event.update_event
        (update_fields_of_input strptime new_title start_str end_str desc_str)
        evt in
    Event.title evt' = (if truthy new_title then new_title else Event.title evt)
    ∧ Event.start_time evt'
      = (if truthy start_str
         then default (Event.start_time evt) (strptime start_str)
         else Event.start_time evt)
    ∧ Event.end_time evt'
      = (if truthy end_str
         then default (Event.end_time evt) (strptime end_str)
         else Event.end_time evt)
    ∧ Event.description evt'
      = (if truthy desc_str then desc_str else Event.description evt)
    ∧ (Event.title evt ≠ EmptyString → Event.title evt' ≠ EmptyString)
    ∧ (Event.description evt ≠ EmptyString
       → Event.description evt' ≠ EmptyString).
Proof.
  intros strptime evt nt s e d evt'. subst evt'.
  unfold update_fields_of_input.
  destruct nt as [|c1 nt], s as [|c2 s], e as [|c3 e], d as [|c4 d]; cbn;
    repeat match goal with
           | |- context [strptime ?x] => destruct (strptime x)
           end; cbn; repeat split; done.
Qed.

(** X20: choice 6 with every input left empty changes nothing, neither the
    events nor the user, and still prints that the event was updated exactly
    when the calendar exists and has an event with the title. *)
Theorem X20_menu_update_with_empty_inputs :
  ∀ (strptime : string → option datetime) (cal_name evt_title : string)
    (σ : store) (u : User.t),
    let r :=
      user_menu_step strptime
        (ChooseUpdateEvent cal_name evt_title
           EmptyString EmptyString EmptyString EmptyString) σ u in
    r.1.2 = σ
    ∧ r.2 = u
    ∧ (r.1.1 = [EventUpdated]
       ↔ ∃ cal l, User.calendars u !! cal_name = Some cal
                  ∧ l ∈ Calendar.events cal ∧ has_title σ evt_title l).
Proof.
  intros strptime cn t σ u r. subst r. unfold user_menu_step.
  destruct (User.calendars u !! cn) as [cal|] eqn:Hcal; cbn.
  - change (update_fields_of_input strptime EmptyString EmptyString
              EmptyString EmptyString) with Event.no_kwargs.
    pose proof (calendar_update_event_true_iff σ cal t Event.no_kwargs) as Hiff.
    destruct (calendar_update_event_cases σ cal t Event.no_kwargs)
      as [[_ E]|(b & l & a & evt & _ & _ & Hl & _ & E)];
      rewrite E in Hiff |- *; cbn in *.
    + split; [done|]. split; [done|]. split; [done|].
      intros (cal' & l & [= <-] & Hin & Hl).
      assert (false = true); [|done]. apply Hiff. by exists l.
    + split; [by apply insert_id|]. split; [done|]. split; [|done].
      intros _. destruct (proj1 Hiff eq_refl) as (l' & Hin & Hl').
      by exists cal, l'.
  - split; [done|]. split; [done|]. split; [done|].
    by intros (cal & l & ? & _).
Qed.

(** X21: choice 4 of the user menu, when the calendar exists and both times
    parse: the event is a new object with exactly the fields typed in; it
    goes to the end of that calendar's list; every event object that existed
    is unchanged; no other calendar changes. *)
Theorem X21_menu_add_event_appends_a_new_object :
  ∀ (strptime : string → option datetime)
    (cal_name title start_str end_str description : string)
    (σ : store) (u : User.t) (cal : Calendar.t) (start_dt end_dt : datetime),
    User.calendars u !! cal_name = Some cal →
    strptime start_str = Some start_dt →
    strptime end_str = Some end_dt →
    let r :=
      user_menu_step strptime
        (ChooseAddEvent cal_name title start_str end_str description) σ u in
    ∃ l,
      σ !! l = None
      ∧ r.1.1 = [EventAdded]
      ∧ r.1.2 !! l = Some (Event.init title start_dt end_dt description)
      ∧ (∀ l', l' ≠ l → r.1.2 !! l' = σ !! l')
      ∧ User.calendars r.2 !! cal_name
        = Some (Calendar.set_events (Calendar.events cal ++ [l]) cal)
      ∧ (∀ k, k ≠ cal_name → User.calendars r.2 !! k = User.calendars u !! k).
Proof.
  intros strptime cn t s e d σ u cal sd ed Hcal Hs He r. subst r.
  unfold user_menu_step. rewrite Hcal, Hs, He. cbn.
  exists (fresh (dom σ)).
  split; [apply not_elem_of_dom, is_fresh|]. split; [done|].
  split; [rewrite lookup_insert_eq; by destruct (Calendar.event_factory cal)|].
  split; [intros l' Hl'; by apply lookup_insert_ne|].
  split; [apply lookup_insert_eq|].
  intros k Hk. by apply lookup_insert_ne.
Qed.

(** X22: choice 4 adds nothing when the calendar is missing or when either
    time fails to parse (the other inputs do not matter): the events and the
    user are unchanged, and the one line printed says which it was. *)
Theorem X22_menu_add_event_rejects :
  ∀ (strptime : string → option datetime)
    (cal_name title start_str end_str description : string)
    (σ : store) (u : User.t),
    User.calendars u !! cal_name = None
    ∨ strptime start_str = None
    ∨ strptime end_str = None →
    let r :=
      user_menu_step strptime
        (ChooseAddEvent cal_name title start_str end_str description) σ u in
    r.1.2 = σ
    ∧ r.2 = u
    ∧ r.1.1 = [if dict_contains cal_name (User.calendars u)
               then InvalidDateTime else NoCalendarFound].
Proof.
  intros strptime cn t s e d σ u H r. subst r.
  unfold user_menu_step, dict_contains.
  destruct (User.calendars u !! cn) as [cal|]; [|done].
  destruct (strptime s) as [sd|]; [|done].
  destruct (strptime e) as [ed|]; [|done].
  destruct H as [H|[H|H]]; done.
Qed.

(** X23: in every state the program reaches from its start, whatever is
    chosen in the menus, no calendar holds the same event object twice and
    every reference of a calendar points to an event of the store; every user
    is stored under its username and every calendar under its name. *)
Theorem X23_menu_states_share_no_event :
  ∀ (strptime : string → option datetime) (choices : list MainChoice),
    let w := (run_main strptime choices initial_world).2 in
    world_wf w
    ∧ ∀ username u calendar_name cal,
        CalendarsApp.get_user username (app w) = Some u →
        User.calendars u !! calendar_name = Some cal →
        User.username u = username
        ∧ Calendar.name cal = calendar_name
        ∧ NoDup (Calendar.events cal)
        ∧ Forall (λ l, is_Some (heap w !! l)) (Calendar.events cal).
Proof.
  intros strptime choices w.
  assert (H : world_wf w).
  { apply run_main_wf. apply map_Forall_empty. }
  split; [done|]. intros n u cn cal Hu Hcal.
  destruct (H n u Hu) as (Hn & Hc & Hs).
  destruct (Hs cn cal Hcal) as [Hnd Hin].
  split; [done|]. split; [by apply (Hc cn cal)|]. by split.
Qed.

(** X24: in every state the program reaches, [update_event] on a calendar
    with several events of the same title changes only the first of them:
    every later match is behind its position as it was before the call. *)
Theorem X24_menu_states_update_only_first_match :
  ∀ (strptime : string → option datetime) (choices : list MainChoice)
    (username calendar_name event_title : string) (u : User.t)
    (cal : Calendar.t) (kw : Event.kwargs),
    let w := (run_main strptime choices initial_world).2 in
    CalendarsApp.get_user username (app w) = Some u →
    User.calendars u !! calendar_name = Some cal →
    later_matches_unchanged (heap w) cal event_title kw.
Proof.
  intros strptime choices n cn t u cal kw w Hu Hcal.
  assert (H : world_wf w).
  { apply run_main_wf. apply map_Forall_empty. }
  destruct (H n u Hu) as (_ & _ & Hs).
  destruct (Hs cn cal Hcal) as [Hnd _].
  by apply later_matches_unchanged_NoDup.
Qed.

(** ** No event object in two calendars *)

Lemma holds_insert (m : gmap string Calendar.t) (c c' : string)
    (cal : Calendar.t) (l : loc) :
  holds (<[c := cal]> m) c' l
  ↔ (c' = c ∧ l ∈ Calendar.events cal) ∨ (c' ≠ c ∧ holds m c' l).
Proof.
  unfold holds. destruct (decide (c' = c)) as [->|Hne].
  - rewrite lookup_insert_eq. split.
    + intros (cal' & [= <-] & Hl). by left.
    + intros [[_ Hl]|[? _]]; [by exists cal | done].
  - rewrite lookup_insert_ne by done. split.
    + intros H. by right.
    + by intros [[? _]|[_ H]].
Qed.

Lemma holds_delete (m : gmap string Calendar.t) (c c' : string) (l : loc) :
  holds (delete c m) c' l ↔ c' ≠ c ∧ holds m c' l.
Proof.
  unfold holds. destruct (decide (c' = c)) as [->|Hne].
  - rewrite lookup_delete_eq. split; [by intros (? & ? & _) | by intros [? _]].
  - rewrite lookup_delete_ne by done. split; [done | by intros [_ H]].
Qed.

Lemma holds_in_store (σ : store) (m : gmap string Calendar.t) (c : string)
    (l : loc) :
  map_Forall (λ _ cal, calendar_unshared σ cal) m →
  holds m c l → l ∈ dom σ.
Proof.
  intros H (cal & Hcal & Hl). destruct (H c cal Hcal) as [_ Hin].
  rewrite Forall_forall in Hin. apply elem_of_dom. by apply Hin.
Qed.

Section UnsharedProofs.

Variable strptime : string → option datetime.

(** After a handler, an event held by a calendar of the user is a new
    object or was held by a calendar of the user before; and no event is
    held by two calendars of the user if none was before. *)
Lemma user_menu_step_holds (choice : UserMenuChoice) (σ : store)
    (u : User.t) :
  map_Forall (λ _ cal, calendar_unshared σ cal) (User.calendars u) →
  (∀ c1 c2 l, holds (User.calendars u) c1 l →
              holds (User.calendars u) c2 l → c1 = c2) →
  let r := user_menu_step strptime choice σ u in
  (∀ c l, holds (User.calendars r.2) c l →
          l ∉ dom σ ∨ ∃ c0, holds (User.calendars u) c0 l)
  ∧ (∀ c1 c2 l, holds (User.calendars r.2) c1 l →
                holds (User.calendars r.2) c2 l → c1 = c2).
Proof.
  intros Hwf Hun r. subst r.
  assert (Hsame :
    (∀ c l, holds (User.calendars u) c l →
            l ∉ dom σ ∨ ∃ c0, holds (User.calendars u) c0 l)
    ∧ (∀ c1 c2 l, holds (User.calendars u) c1 l →
                  holds (User.calendars u) c2 l → c1 = c2)).
  { split; [|done]. intros c l H. right. by exists c. }
  destruct choice as [n|n|n t s e d|n t|n t nt s e d|o n];
    unfold user_menu_step.
  - destruct (create_calendar_cases n u) as [[_ ->]|[_ ->]]; [done|].
    cbn. split.
    + intros c l. rewrite holds_insert. cbn.
      intros [[_ H]|[_ H]]; [by apply elem_of_nil in H|]. right. by exists c.
    + intros c1 c2 l. rewrite !holds_insert. cbn.
      intros [[_ H]|[_ H1]]; [by apply elem_of_nil in H|].
      intros [[_ H]|[_ H2]]; [by apply elem_of_nil in H|]. by eapply Hun.
  - unfold User.remove_calendar, dict_pop. cbn. split.
    + intros c l. rewrite holds_delete. intros [_ H]. right. by exists c.
    + intros c1 c2 l. rewrite !holds_delete. intros [_ H1] [_ H2].
      by eapply Hun.
  - destruct (User.calendars u !! n) as [cal|] eqn:Hcal; [|done].
    destruct (strptime s) as [sd|]; [|done].
    destruct (strptime e) as [ed|]; [|done].
    cbn. pose proof (is_fresh (dom σ)) as Hfresh.
    assert (Hold : ∀ c l, holds (User.calendars u) c l → l ≠ fresh (dom σ)).
    { intros c l H ->. apply Hfresh. by eapply holds_in_store. }
    split.
    + intros c l. rewrite holds_insert. cbn. rewrite elem_of_app.
      intros [[-> [H|H]]|[_ H]].
      * right. exists n, cal. by split.
      * apply list_elem_of_singleton in H as ->. by left.
      * right. by exists c.
    + intros c1 c2 l. rewrite !holds_insert. cbn. rewrite !elem_of_app.
      intros [[-> H1]|[Hc1 H1]] [[-> H2]|[Hc2 H2]]; [done| | |by eapply Hun].
      * destruct H1 as [H1|H1].
        -- apply (Hun n c2 l); [by exists cal | done].
        -- apply list_elem_of_singleton in H1 as ->. by destruct (Hold c2 _ H2).
      * destruct H2 as [H2|H2].
        -- apply (Hun c1 n l); [done | by exists cal].
        -- apply list_elem_of_singleton in H2 as ->. by destruct (Hold c1 _ H1).
  - destruct (User.calendars u !! n) as [cal|] eqn:Hcal; [|done].
    assert (Hsub : ∀ l, l ∈ Calendar.events (Calendar.remove_event t σ cal).2
                        → holds (User.calendars u) n l).
    { intros l Hl. exists cal. split; [done|].
      destruct (remove_event_cases σ cal t)
        as [[_ E]|(b & l0 & a & Hev & _ & _ & E)]; rewrite E in Hl; [done|].
      cbn in Hl. rewrite Hev.
      apply elem_of_app in Hl as [Hl|Hl]; apply elem_of_app;
        [by left | right; apply elem_of_cons; by right]. }
    destruct (Calendar.remove_event t σ cal) as [r cal']. cbn in *. split.
    + intros c l. rewrite holds_insert.
      intros [[-> H]|[_ H]]; right; [exists n; by apply Hsub | by exists c].
    + intros c1 c2 l. rewrite !holds_insert.
      intros [[-> H1]|[Hc1 H1]] [[-> H2]|[Hc2 H2]]; [done| | |by eapply Hun].
      * apply (Hun n c2 l); [by apply Hsub | done].
      * apply (Hun c1 n l); [done | by apply Hsub].
  - destruct (User.calendars u !! n) as [cal|] eqn:Hcal; [|done].
    by destruct (Calendar.update_event t _ σ cal).
  - destruct (update_calendar_name_cases o n u)
      as [[_ ->]|(cal & Ho & Hn & ->)]; [done|].
    cbn.
    assert (Hmoved : ∀ l, l ∈ Calendar.events cal → holds (User.calendars u) o l).
    { intros l Hl. by exists cal. }
    split.
    + intros c l. rewrite holds_insert, holds_delete. cbn.
      intros [[-> H]|[_ [_ H]]]; right; [exists o; by apply Hmoved | by exists c].
    + intros c1 c2 l. rewrite !holds_insert, !holds_delete. cbn.
      intros [[-> H1]|[Hc1 [Ho1 H1]]] [[-> H2]|[Hc2 [Ho2 H2]]];
        [done| | |by eapply Hun].
      * destruct Ho2. symmetry. apply (Hun o c2 l); [by apply Hmoved | done].
      * destruct Ho1. symmetry. apply (Hun o c1 l); [by apply Hmoved | done].
Qed.

Lemma run_user_menu_holds (session : list UserMenuChoice) (σ : store)
    (u : User.t) :
  map_Forall (λ _ cal, calendar_unshared σ cal) (User.calendars u) →
  (∀ c1 c2 l, holds (User.calendars u) c1 l →
              holds (User.calendars u) c2 l → c1 = c2) →
  let r := run_user_menu strptime session σ u in
  (∀ c l, holds (User.calendars r.2) c l →
          l ∉ dom σ ∨ ∃ c0, holds (User.calendars u) c0 l)
  ∧ (∀ c1 c2 l, holds (User.calendars r.2) c1 l →
                holds (User.calendars r.2) c2 l → c1 = c2).
Proof.
  revert σ u. induction session as [|choice session IH]; intros σ u Hwf Hun.
  - cbn. split; [|done]. intros c l H. right. by exists c.
  - cbn.
    destruct (user_menu_step_unshared strptime choice σ u Hwf) as [Hwf1 Hsub].
    destruct (user_menu_step_holds choice σ u Hwf Hun) as [Hfrom1 Hun1].
    destruct (user_menu_step strptime choice σ u) as [[out σ1] u1].
    cbn in *. destruct (IH σ1 u1 Hwf1 Hun1) as [Hfrom2 Hun2].
    destruct (run_user_menu strptime session σ1 u1) as [[out' σ2] u2].
    cbn in *. split; [|done]. intros c l H.
    destruct (Hfrom2 c l H) as [Hnew|[c0 H0]].
    + left. intros Hin. apply Hnew. by apply Hsub.
    + by apply (Hfrom1 c0).
Qed.

Lemma main_step_unshared (choice : MainChoice) (w : World) :
  world_wf w → world_unshared w →
  world_unshared (main_step strptime choice w).2.
Proof.
  intros Hwf Hun. destruct choice as [n|n session|n]; unfold main_step.
  - destruct (create_user_cases n (app w)) as [[_ ->]|[_ ->]]; [done|].
    intros n1 n2 u1 u2 c1 c2 l. cbn.
    rewrite !lookup_insert_Some.
    intros [[<- <-]|[Hn1 H1]] [[<- <-]|[Hn2 H2]] Hh1 Hh2.
    + by destruct Hh1 as (cal & Hcal & _).
    + by destruct Hh1 as (cal & Hcal & _).
    + by destruct Hh2 as (cal & Hcal & _).
    + by apply (Hun n1 n2 u1 u2 c1 c2 l).
  - unfold CalendarsApp.get_user.
    destruct (CalendarsApp.users (app w) !! n) as [u|] eqn:Hu; [|done].
    destruct (Hwf n u Hu) as (_ & _ & Hwfu).
    assert (Hunu : ∀ c1 c2 l, holds (User.calendars u) c1 l →
                              holds (User.calendars u) c2 l → c1 = c2).
    { intros c1 c2 l H1 H2. by destruct (Hun n n u u c1 c2 l Hu Hu H1 H2). }
    destruct (run_user_menu_holds session (heap w) u Hwfu Hunu) as [Hfrom Hun'].
    destruct (run_user_menu strptime session (heap w) u) as [[out σ'] u'].
    cbn in *.
    assert (Hother : ∀ k v c c' l, k ≠ n →
              CalendarsApp.users (app w) !! k = Some v →
              holds (User.calendars u') c l →
              holds (User.calendars v) c' l → False).
    { intros k v c c' l Hk Hv Hh Hh'.
      destruct (Hwf k v Hv) as (_ & _ & Hwfv).
      destruct (Hfrom c l Hh) as [Hnew|[c0 H0]].
      - apply Hnew. by eapply holds_in_store.
      - by destruct (Hun n k u v c0 c' l Hu Hv H0 Hh') as [-> _]. }
    intros n1 n2 u1 u2 c1 c2 l. cbn.
    rewrite !lookup_insert_Some.
    intros [[<- <-]|[Hn1 H1]] [[<- <-]|[Hn2 H2]] Hh1 Hh2.
    + split; [done|]. by eapply Hun'.
    + by destruct (Hother n2 u2 c1 c2 l).
    + by destruct (Hother n1 u1 c2 c1 l).
    + by apply (Hun n1 n2 u1 u2 c1 c2 l).
  - unfold CalendarsApp.delete_user, dict_pop.
    intros n1 n2 u1 u2 c1 c2 l. cbn.
    rewrite !lookup_delete_Some. intros [_ H1] [_ H2].
    by apply (Hun n1 n2 u1 u2 c1 c2 l).
Qed.

Lemma run_main_unshared (choices : list MainChoice) (w : World) :
  world_wf w → world_unshared w →
  world_unshared (run_main strptime choices w).2.
Proof.
  revert w. induction choices as [|choice choices IH]; intros w Hwf Hun.
  - done.
  - cbn. pose proof (main_step_wf strptime choice w Hwf) as Hwf1.
    pose proof (main_step_unshared choice w Hwf Hun) as Hun1.
    destruct (main_step strptime choice w) as [out w1]. cbn in *.
    specialize (IH w1 Hwf1 Hun1).
    by destruct (run_main strptime choices w1) as [out' w2].
Qed.

End UnsharedProofs.

(** X25: in every state the program reaches, no event object belongs to two
    calendars, of the same user or of different users: an event found in two
    places is in one and the same calendar of one and the same user. *)
Theorem X25_menu_states_keep_calendars_apart :
  ∀ (strptime : string → option datetime) (choices : list MainChoice)
    (n1 n2 c1 c2 : string) (u1 u2 : User.t) (cal1 cal2 : Calendar.t)
    (l : loc),
    let w := (run_main strptime choices initial_world).2 in
    CalendarsApp.get_user n1 (app w) = Some u1 →
    CalendarsApp.get_user n2 (app w) = Some u2 →
    User.calendars u1 !! c1 = Some cal1 →
    User.calendars u2 !! c2 = Some cal2 →
    l ∈ Calendar.events cal1 →
    l ∈ Calendar.events cal2 →
    n1 = n2 ∧ c1 = c2.
Proof.
  intros strptime choices n1 n2 c1 c2 u1 u2 cal1 cal2 l w Hu1 Hu2 Hc1 Hc2
    Hl1 Hl2.
  assert (H : world_unshared w).
  { apply run_main_unshared.
    - apply map_Forall_empty.
    - intros ? ? ? ? ? ? ? H. cbn in H. by rewrite lookup_empty in H. }
  apply (H n1 n2 u1 u2 c1 c2 l Hu1 Hu2); [by exists cal1 | by exists cal2].
Qed.

(** * Concrete runs of the further properties *)

(** A closed decidable statement, by evaluation. *)
Ltac by_evaluation :=
  match goal with
  | |- ?P => apply (bool_decide_eq_true_1 P); vm_compute; reflexivity
  end.

Lemma sample_review_only :
  Forall (λ l, ¬ has_title sample_store "standup" l) [1].
Proof. by_evaluation. Qed.


Lemma X4_add_then_remove_event_witness :
  let cal := Calendar.add_event 1 (Calendar.init "work") in
  Forall (λ l, ¬ has_title sample_store "standup" l) (Calendar.events cal)
  ∧ has_title sample_store "standup" 0
  ∧ Calendar.remove_event "standup" sample_store (Calendar.add_event 0 cal)
    = (true, cal).
Proof.
  intros cal.
  assert (H1 : Forall (λ l, ¬ has_title sample_store "standup" l)
                 (Calendar.events cal)) by exact sample_review_only.
  assert (H2 : has_title sample_store "standup" 0) by by_evaluation.
  split; [exact H1|]. split; [exact H2|].
  exact (X4_add_then_remove_event sample_store cal 0 "standup" H1 H2).
Defined.

Lemma X5_add_event_does_not_shadow_witness :
  let kw := Event.mk_kwargs None None None (Some "daily") in
  (∃ l, l ∈ Calendar.events sample_calendar
        ∧ has_title sample_store "standup" l)
  ∧ Calendar.update_event "standup" kw sample_store
      (Calendar.add_event 2 sample_calendar)
    = Calendar.update_event "standup" kw sample_store sample_calendar
  ∧ Calendar.remove_event "standup" sample_store
      (Calendar.add_event 2 sample_calendar)
    = (true,
       Calendar.add_event 2
         (Calendar.remove_event "standup" sample_store sample_calendar).2).
Proof.
  intros kw.
  assert (H : ∃ l, l ∈ Calendar.events sample_calendar
                   ∧ has_title sample_store "standup" l).
  { exists 0. split; by_evaluation. }
  split; [exact H|].
  exact (X5_add_event_does_not_shadow sample_store sample_calendar 2
           "standup" kw H).
Defined.

Lemma X6_update_event_repeated_witness :
  let kw := Event.mk_kwargs None None None (Some "daily") in
  default "standup" (Event.kw_title kw) = "standup"
  ∧ Calendar.update_event "standup" kw
      (Calendar.update_event "standup" kw sample_store sample_calendar).2
      sample_calendar
    = Calendar.update_event "standup" kw sample_store sample_calendar.
Proof.
  intros kw. split; [reflexivity|].
  exact (X6_update_event_repeated sample_store sample_calendar "standup" kw
           eq_refl).
Defined.

Lemma X7_update_event_new_title_moves_on_witness :
  let kw := Event.mk_kwargs (Some "daily") None None None in
  let σ1 :=
    (Calendar.update_event "standup" kw sample_store sample_calendar).2 in
  has_title sample_store "standup" 0
  ∧ has_title σ1 "daily" 0
  ∧ ¬ has_title σ1 "standup" 0
  ∧ (∀ l' t, l' ≠ 0 → has_title σ1 t l' ↔ has_title sample_store t l')
  ∧ ((Calendar.update_event "standup" Event.no_kwargs σ1 sample_calendar).1
     = true
     ↔ ∃ l', l' ∈ [2] ∧ l' ≠ 0 ∧ has_title sample_store "standup" l').
Proof.
  intros kw σ1.
  assert (H : has_title sample_store "standup" 0) by by_evaluation.
  split; [exact H|].
  refine (X7_update_event_new_title_moves_on sample_store sample_calendar
            "standup" "daily" kw Event.no_kwargs [1] [2] 0
            eq_refl sample_review_only H eq_refl _).
  intros Heq. discriminate Heq.
Defined.


Lemma X12_rename_frees_the_old_name_witness :
  let u1 := (User.update_calendar_name "work" "home" sample_user).2 in
  let r := User.create_calendar "work" u1 in
  User.calendars sample_user !! "work" = Some sample_calendar
  ∧ (User.update_calendar_name "work" "home" sample_user).1 = true
  ∧ r.1 = true
  ∧ User.calendars r.2 !! "home"
    = Some (Calendar.set_name "home" sample_calendar)
  ∧ Calendar.events (Calendar.set_name "home" sample_calendar)
    = Calendar.events sample_calendar
  ∧ User.calendars r.2 !! "work" = Some (Calendar.init "work").
Proof.
  intros u1 r.
  assert (H1 : User.calendars sample_user !! "work" = Some sample_calendar).
  { vm_compute. reflexivity. }
  assert (H2 : (User.update_calendar_name "work" "home" sample_user).1 = true).
  { vm_compute. reflexivity. }
  split; [exact H1|]. split; [exact H2|].
  exact (X12_rename_frees_the_old_name sample_user "work" "home"
           sample_calendar H1 H2).
Defined.

Lemma X13_create_then_remove_calendar_witness :
  User.calendars sample_user !! "home" = None
  ∧ (User.create_calendar "home" sample_user).1 = true
  ∧ User.remove_calendar "home" (User.create_calendar "home" sample_user).2
    = (true, sample_user).
Proof.
  assert (H : User.calendars sample_user !! "home" = None).
  { vm_compute. reflexivity. }
  split; [exact H|].
  exact (X13_create_then_remove_calendar sample_user "home" H).
Defined.

Lemma X21_menu_add_event_appends_a_new_object_witness :
  let r :=
    user_menu_step sample_strptime
      (ChooseAddEvent "work" "lunch" "2024-01-01 09:00" "2024-01-01 09:30"
         "canteen") sample_store sample_user in
  User.calendars sample_user !! "work" = Some sample_calendar
  ∧ sample_strptime "2024-01-01 09:00" = Some 540%Z
  ∧ sample_strptime "2024-01-01 09:30" = Some 570%Z
  ∧ ∃ l,
      sample_store !! l = None
      ∧ r.1.1 = [EventAdded]
      ∧ r.1.2 !! l = Some (Event.init "lunch" 540%Z 570%Z "canteen")
      ∧ (∀ l', l' ≠ l → r.1.2 !! l' = sample_store !! l')
      ∧ User.calendars r.2 !! "work"
        = Some (Calendar.set_events
                  (Calendar.events sample_calendar ++ [l]) sample_calendar)
      ∧ (∀ k, k ≠ "work" →
           User.calendars r.2 !! k = User.calendars sample_user !! k).
Proof.
  intros r.
  assert (H1 : User.calendars sample_user !! "work" = Some sample_calendar).
  { vm_compute. reflexivity. }
  split; [exact H1|]. split; [reflexivity|]. split; [reflexivity|].
  exact (X21_menu_add_event_appends_a_new_object sample_strptime
           "work" "lunch" "2024-01-01 09:00" "2024-01-01 09:30" "canteen"
           sample_store sample_user sample_calendar 540%Z 570%Z
           H1 eq_refl eq_refl).
Defined.

Lemma X22_menu_add_event_rejects_witness :
  let r :=
    user_menu_step sample_strptime
      (ChooseAddEvent "work" "lunch" "tomorrow" "2024-01-01 09:30" "canteen")
      sample_store sample_user in
  sample_strptime "tomorrow" = None
  ∧ r.1.2 = sample_store
  ∧ r.2 = sample_user
  ∧ r.1.1 = [if dict_contains "work" (User.calendars sample_user)
             then InvalidDateTime else NoCalendarFound].
Proof.
  intros r. split; [reflexivity|].
  exact (X22_menu_add_event_rejects sample_strptime
           "work" "lunch" "tomorrow" "2024-01-01 09:30" "canteen"
           sample_store sample_user (or_intror (or_introl eq_refl))).
Defined.

Lemma X24_menu_states_update_only_first_match_witness :
  let w := (run_main sample_strptime sample_choices initial_world).2 in
  CalendarsApp.get_user "alice" (app w) = Some sample_menu_user
  ∧ User.calendars sample_menu_user !! "work" = Some sample_menu_calendar
  ∧ later_matches_unchanged (heap w) sample_menu_calendar "standup"
      (Event.mk_kwargs None None None (Some "daily")).
Proof.
  intros w.
  assert (H1 : CalendarsApp.get_user "alice" (app w) = Some sample_menu_user).
  { vm_compute. reflexivity. }
  assert (H2 : User.calendars sample_menu_user !! "work"
               = Some sample_menu_calendar).
  { vm_compute. reflexivity. }
  split; [exact H1|]. split; [exact H2|].
  exact (X24_menu_states_update_only_first_match sample_strptime
           sample_choices "alice" "work" "standup" sample_menu_user
           sample_menu_calendar (Event.mk_kwargs None None None (Some "daily"))
           H1 H2).
Defined.

Lemma X25_menu_states_keep_calendars_apart_witness :
  let w := (run_main sample_strptime sample_choices initial_world).2 in
  CalendarsApp.get_user "alice" (app w) = Some sample_menu_user
  ∧ User.calendars sample_menu_user !! "work" = Some sample_menu_calendar
  ∧ 0 ∈ Calendar.events sample_menu_calendar
  ∧ "alice" = "alice" ∧ "work" = "work".
Proof.
  intros w.
  assert (H1 : CalendarsApp.get_user "alice" (app w) = Some sample_menu_user).
  { vm_compute. reflexivity. }
  assert (H2 : User.calendars sample_menu_user !! "work"
               = Some sample_menu_calendar).
  { vm_compute. reflexivity. }
  assert (H3 : 0 ∈ Calendar.events sample_menu_calendar).
  { apply list_elem_of_here. }
  split; [exact H1|]. split; [exact H2|]. split; [exact H3|].
  exact (X25_menu_states_keep_calendars_apart sample_strptime sample_choices
           "alice" "alice" "work" "work" sample_menu_user sample_menu_user
           sample_menu_calendar sample_menu_calendar 0 H1 H1 H2 H2 H3 H3).
Defined.
